(** * agents-js: the turn pipeline and its collaborators

  A shallow embedding of the core of the voice-agent pipeline
  (src/core/sentence-splitter.ts, barge-in.ts, context-manager.ts and
  the Pipeline class), of the turn detector and of the queue of the
  room memory, together with the properties of
  its specification.

  JavaScript strings are sequences of UTF-16 code units; they are
  modelled as [list N].  Objects with mutable fields become records
  that are passed explicitly; asynchronous code is cut at its
  suspension points ([await]) and driven by the events of its
  environment. *)

From Stdlib Require Import ZArith NArith List Bool Lia String Ascii.
From stdpp Require Import base option list.

Local Open Scope nat_scope.

(** ** JavaScript strings *)

Module Js.

Abbreviation jsstring := (list N).

(** A literal of the source, character by character (ASCII only). *)
Definition str (s : string) : jsstring :=
  List.map N_of_ascii (list_ascii_of_string s).

(** The double quote, written by its code unit. *)
Definition dquote : N := 34%N.

(** ECMAScript WhiteSpace and LineTerminator code units: the set that
    [String.prototype.trim] removes and that [\s] matches. *)
Definition is_space (c : N) : bool :=
  ((9 <=? c) && (c <=? 13) || (c =? 32) || (c =? 160) || (c =? 5760)
   || (8192 <=? c) && (c <=? 8202) || (c =? 8232) || (c =? 8233)
   || (c =? 8239) || (c =? 8287) || (c =? 12288) || (c =? 65279))%N.

(** [\w]: ASCII letters, digits and the underscore. *)
Definition is_word (c : N) : bool :=
  ((48 <=? c) && (c <=? 57) || (65 <=? c) && (c <=? 90)
   || (c =? 95) || (97 <=? c) && (c <=? 122))%N.

Fixpoint drop_while {A} (p : A -> bool) (l : list A) : list A :=
  match l with
  | [] => []
  | x :: l' => if p x then drop_while p l' else l
  end.

Fixpoint take_while {A} (p : A -> bool) (l : list A) : list A :=
  match l with
  | [] => []
  | x :: l' => if p x then x :: take_while p l' else []
  end.

Definition trimStart (s : jsstring) : jsstring := drop_while is_space s.
Definition trimEnd (s : jsstring) : jsstring :=
  rev (drop_while is_space (rev s)).
Definition trim (s : jsstring) : jsstring := trimEnd (trimStart s).

(** Truthiness of a string: the empty string is falsy. *)
Definition truthy (s : jsstring) : bool :=
  match s with [] => false | _ => true end.

(** [s.includes(sub)] *)
Fixpoint startsWith (sub s : jsstring) : bool :=
  match sub, s with
  | [], _ => true
  | a :: sub', b :: s' => (a =? b)%N && startsWith sub' s'
  | _ :: _, [] => false
  end.

Fixpoint includes (s sub : jsstring) : bool :=
  startsWith sub s ||
  match s with
  | [] => false
  | _ :: s' => includes s' sub
  end.

(** [sub] occurs in [s]. *)
Definition substring (sub s : jsstring) : Prop :=
  exists pre post, s = pre ++ sub ++ post.

(** The characters of [s] that are not white space, in order. *)
Definition nonspace (s : jsstring) : jsstring :=
  List.filter (fun c => negb (is_space c)) s.

(** [s.lastIndexOf(c, from)] for a single code unit: the greatest
    index [i <= from] with [s[i] = c]; [None] stands for [-1]. *)
Fixpoint lastIndexOf_aux (c : N) (s : jsstring) (i from : nat)
    (found : option nat) : option nat :=
  match s with
  | [] => found
  | x :: s' =>
      if from <? i then found
      else lastIndexOf_aux c s' (S i) from
             (if (x =? c)%N then Some i else found)
  end.

Definition lastIndexOf (c : N) (from : nat) (s : jsstring) : option nat :=
  lastIndexOf_aux c s 0 from None.

(** [parts.join(sep)] *)
Fixpoint join (sep : jsstring) (parts : list jsstring) : jsstring :=
  match parts with
  | [] => []
  | [p] => p
  | p :: rest => p ++ sep ++ join sep rest
  end.

(** *** The regular expressions of the source

    Every pattern used by the pipeline is a sequence of character
    classes, greedy starred classes and, once, the end anchor.  The
    matcher below follows the backtracking semantics of ECMAScript
    for this fragment: a starred class first tries to take one more
    character and gives it back only when the rest of the pattern
    fails. *)

Inductive atom :=
| One (p : N -> bool)      (* [...]   *)
| Many (p : N -> bool)     (* [...]*  *)
| AtEnd.                   (* $       *)

Definition regex := list atom.

(** Length of the match of [re] starting at the head of [s]. *)
Fixpoint match_here (re : regex) (s : jsstring) : option nat :=
  match re with
  | [] => Some 0
  | One p :: re' =>
      match s with
      | c :: s' => if p c then S <$> match_here re' s' else None
      | [] => None
      end
  | Many p :: re' =>
      (fix star (s : jsstring) : option nat :=
         match s with
         | c :: s' =>
             if p c then
               match star s' with
               | Some n => Some (S n)
               | None => match_here re' s
               end
             else match_here re' s
         | [] => match_here re' s
         end) s
  | AtEnd :: re' =>
      match s with
      | [] => match_here re' s
      | _ :: _ => None
      end
  end.

(** [s.match(re)] without the global flag: the leftmost match, as
    [(index, length of match[0])]. *)
Fixpoint search_from (re : regex) (s : jsstring) (i : nat)
    : option (nat * nat) :=
  match match_here re s with
  | Some n => Some (i, n)
  | None =>
      match s with
      | [] => None
      | _ :: s' => search_from re s' (S i)
      end
  end.

Definition search (re : regex) (s : jsstring) : option (nat * nat) :=
  search_from re s 0.

(** [re.test(s)] *)
Definition test (re : regex) (s : jsstring) : bool :=
  match search re s with Some _ => true | None => false end.

End Js.

Import Js.

(** ** SentenceSplitter (src/core/sentence-splitter.ts) *)

Module SentenceSplitter.

Definition MIN_CHUNK : nat := 20.
Definition MAX_CHUNK : nat := 150.

Definition is_terminator (c : N) : bool :=
  ((c =? 46) || (c =? 33) || (c =? 63))%N.          (* . ! ? *)

Definition is_clause_sep (c : N) : bool :=
  ((c =? 44) || (c =? 59) || (c =? 58) || (c =? 8212))%N. (* , ; : U+2014 *)

(** /[^.!?]*[.!?]\s*/ *)
Definition sentenceRe : regex :=
  [Many (fun c => negb (is_terminator c)); One is_terminator; Many is_space].

(** /[,;:\u2014]\s*/ *)
Definition clauseRe : regex := [One is_clause_sep; Many is_space].

(** The class has one private field. *)
Record t := { buffer : jsstring }.

Definition create : t := {| buffer := [] |}.

(** Rule 1 of the loop body: [Some (chunk, rest)] when it splits. *)
Definition sentenceRule (buffer : jsstring) : option (jsstring * jsstring) :=
  match search sentenceRe buffer with
  | Some (index, len) =>
      let end_ := index + len in
      let chunk := trim (take end_ buffer) in
      if MIN_CHUNK <=? length chunk then Some (chunk, drop end_ buffer)
      else None
  | None => None
  end.

(** Rule 2, inside the [buffer.length >= MAX_CHUNK] branch. *)
Definition clauseRule (buffer : jsstring) : option (jsstring * jsstring) :=
  match search clauseRe buffer with
  | Some (index, len) =>
      if MIN_CHUNK <=? index then
        let end_ := index + len in
        Some (trim (take end_ buffer), drop end_ buffer)
      else None
  | None => None
  end.

(** Rule 3, the forced split at a space. *)
Definition wordRule (buffer : jsstring) : option (jsstring * jsstring) :=
  match lastIndexOf 32%N MAX_CHUNK buffer with
  | Some spaceIdx =>
      if MIN_CHUNK <=? spaceIdx then
        Some (trim (take spaceIdx buffer), drop spaceIdx buffer)
      else None
  | None => None
  end.

(** One pass through the body of [while (true)]: [Some (chunk, rest)]
    for a [continue], [None] for the [break]. *)
Definition extractStep (buffer : jsstring) : option (jsstring * jsstring) :=
  match sentenceRule buffer with
  | Some r => Some r
  | None =>
      if MAX_CHUNK <=? length buffer then
        match clauseRule buffer with
        | Some r => Some r
        | None => wordRule buffer
        end
      else None
  end.

(** The loop.  Every pass that continues shortens the buffer, so
    [length buffer] passes are always enough (see
    [extractChunks_breaks]). *)
Fixpoint extractLoop (fuel : nat) (buffer : jsstring)
    (chunks : list jsstring) : list jsstring * jsstring :=
  match fuel with
  | 0 => (chunks, buffer)
  | S fuel' =>
      match extractStep buffer with
      | Some (chunk, rest) => extractLoop fuel' rest (chunks ++ [chunk])
      | None => (chunks, buffer)
      end
  end.

Definition extractChunks (s : t) : list jsstring * t :=
  let '(chunks, rest) := extractLoop (length (buffer s)) (buffer s) [] in
  (chunks, {| buffer := rest |}).

Definition push (s : t) (token : jsstring) : list jsstring * t :=
  extractChunks {| buffer := buffer s ++ token |}.

Definition flush (s : t) : option jsstring * t :=
  let text := trim (buffer s) in
  ((if 0 <? length text then Some text else None), {| buffer := [] |}).

Definition reset (s : t) : t := {| buffer := [] |}.

(** A whole session: the fragments are pushed in order, then the
    splitter is flushed. *)
Fixpoint pushAll (s : t) (fragments : list jsstring)
    : list jsstring * t :=
  match fragments with
  | [] => ([], s)
  | f :: fs =>
      let '(chunks, s1) := push s f in
      let '(more, s2) := pushAll s1 fs in
      (chunks ++ more, s2)
  end.

(** [null] counts as the empty string. *)
Definition flushed_text (r : option jsstring) : jsstring :=
  match r with Some text => text | None => [] end.

(** What a fresh splitter gives for [fragments]: the chunks of all the
    pushes, and the result of the final flush. *)
Definition session (fragments : list jsstring)
    : list jsstring * option jsstring :=
  let '(chunks, s) := pushAll create fragments in
  (chunks, fst (flush s)).

Definition output_text (fragments : list jsstring) : jsstring :=
  let '(chunks, last) := session fragments in
  concat chunks ++ flushed_text last.

End SentenceSplitter.

(** ** Plugin interfaces (src/core/types.ts) *)

Module Types.

Inductive Role := system | user | assistant.

Record Message := { role : Role; content : jsstring }.

Inductive ChunkType := token_t | segment_t | tool_call_t | done_t.

Record Segment := { lang : jsstring; seg_text : jsstring }.

(** [LLMChunk]: a type tag and optional payload fields. *)
Record LLMChunk := {
  type : ChunkType;
  token : option jsstring;
  segment : option Segment;
  toolCall : option (jsstring * jsstring);
  usage : option (Z * Z);
}.

Definition tokenChunk (text : jsstring) : LLMChunk :=
  {| type := token_t; token := Some text; segment := None;
     toolCall := None; usage := None |}.

Definition segmentChunk (l text : jsstring) : LLMChunk :=
  {| type := segment_t; token := None;
     segment := Some {| lang := l; seg_text := text |};
     toolCall := None; usage := None |}.

Definition doneChunk : LLMChunk :=
  {| type := done_t; token := None; segment := None;
     toolCall := None; usage := None |}.

(** A thrown value, as far as the code looks at it: [err.name] and
    [err.message]. *)
Record JsError := { name : jsstring; message : jsstring }.

Definition isAbortError (e : JsError) : bool :=
  bool_decide (name e = str "AbortError").

Definition abortError : JsError :=
  {| name := str "AbortError"; message := str "This operation was aborted" |}.

Definition plainError (msg : jsstring) : JsError :=
  {| name := str "Error"; message := msg |}.

(** What [for await (const chunk of llm.chat(...))] sees of a stream
    that is read to its end: the chunks it yields, then either a normal
    end or a thrown error. *)
Record LLMStream := { chunks : list LLMChunk; failure : option JsError }.

(** [llm.chat] as far as a caller that passes no signal can tell. *)
Definition LLMPlugin := list Message -> LLMStream.

(** [for await (const chunk of stream) body]: the loop variable after
    the last chunk, or the error that leaves the loop. *)
Definition forAwait {S} (stream : LLMStream) (body : S -> LLMChunk -> S)
    (init : S) : S + JsError :=
  let final := fold_left body (chunks stream) init in
  match failure stream with
  | Some e => inr e
  | None => inl final
  end.

(** One settled [llmStream.next()]. *)
Inductive IteratorResult :=
| NextYield (chunk : LLMChunk)
| NextDone
| NextThrow (e : JsError).

End Types.

Import Types.

(** ** BargeIn (src/core/barge-in.ts) *)

Module BargeIn.

Section WithWorld.

(** Whatever the interrupt callback acts on; the callback is taken not
    to call back into the controller. *)
Context {W : Type}.

(** [signals] is the store of the [AbortSignal]s created so far, each
    with its [aborted] flag; a signal is known by its index, so a cycle
    can keep the signal after the controller has been dropped. *)
Record t := {
  abortController : option nat;
  _interrupted : bool;
  _onInterrupt : option (W -> W);
  signals : list bool;
}.

Definition create : t :=
  {| abortController := None; _interrupted := false;
     _onInterrupt := None; signals := [] |}.

Definition interrupted (b : t) : bool := _interrupted b.

Definition set_onInterrupt (cb : option (W -> W)) (b : t) : t :=
  {| abortController := abortController b; _interrupted := _interrupted b;
     _onInterrupt := cb; signals := signals b |}.

(** [signal.aborted] *)
Definition aborted (b : t) (signal : nat) : bool :=
  default false (signals b !! signal).

Definition startCycle (b : t) : nat * t :=
  let signal := length (signals b) in
  (signal,
   {| abortController := Some signal; _interrupted := false;
      _onInterrupt := _onInterrupt b; signals := signals b ++ [false] |}).

Definition trigger (b : t) (w : W) : t * W :=
  if _interrupted b then (b, w)
  else
    let signals' :=
      match abortController b with
      | Some signal => <[signal := true]> (signals b)
      | None => signals b
      end in
    ({| abortController := None; _interrupted := true;
        _onInterrupt := _onInterrupt b; signals := signals' |},
     match _onInterrupt b with
     | Some cb => cb w
     | None => w
     end).

Definition reset (b : t) : t :=
  {| abortController := None; _interrupted := false;
     _onInterrupt := _onInterrupt b; signals := signals b |}.

End WithWorld.

Arguments t W : clear implicits.

End BargeIn.

(** ** ContextManager (src/core/context-manager.ts) *)

Module ContextManager.

(** [Math.ceil(text.length / 4)] *)
Definition estimateTokens (text : jsstring) : Z :=
  (- ((- Z.of_nat (length text)) / 4))%Z.

Record Turn := {
  speaker : jsstring;
  text : jsstring;
  isAgent : bool;
  timestamp : Z;
}.

Record t := {
  instructions : jsstring;
  maxContextTokens : Z;
  recentTurnsToKeep : Z;
  turns : list Turn;
  summary : option jsstring;
}.

Record ContextManagerOptions := {
  opt_instructions : jsstring;
  opt_maxContextTokens : option Z;
  opt_recentTurnsToKeep : option Z;
}.

Definition create (options : ContextManagerOptions) : t :=
  {| instructions := opt_instructions options;
     maxContextTokens := default 5000%Z (opt_maxContextTokens options);
     recentTurnsToKeep := default 4%Z (opt_recentTurnsToKeep options);
     turns := [];
     summary := None |}.

Definition set_turns (ts : list Turn) (c : t) : t :=
  {| instructions := instructions c; maxContextTokens := maxContextTokens c;
     recentTurnsToKeep := recentTurnsToKeep c; turns := ts;
     summary := summary c |}.

Definition set_summary (s : option jsstring) (c : t) : t :=
  {| instructions := instructions c; maxContextTokens := maxContextTokens c;
     recentTurnsToKeep := recentTurnsToKeep c; turns := turns c;
     summary := s |}.

(** [now] is the reading of [Date.now()]. *)
Definition addUserTurn (now : Z) (who words : jsstring) (c : t) : t :=
  set_turns (turns c ++ [{| speaker := who; text := words;
                            isAgent := false; timestamp := now |}]) c.

Definition addAgentTurn (now : Z) (words : jsstring) (c : t) : t :=
  set_turns (turns c ++ [{| speaker := str "assistant"; text := words;
                            isAgent := true; timestamp := now |}]) c.

(** [Array.prototype.slice]: a negative index counts from the end, and
    both ends are clamped to the array. *)
Definition relativeIndex (len i : Z) : Z :=
  if (i <? 0)%Z then Z.max (len + i) 0 else Z.min i len.

Definition slice {A} (l : list A) (start stop : Z) : list A :=
  let len := Z.of_nat (length l) in
  let from := relativeIndex len start in
  let to := relativeIndex len stop in
  take (Z.to_nat (to - from)) (drop (Z.to_nat from) l).

(** [l.slice(start)] *)
Definition sliceFrom {A} (l : list A) (start : Z) : list A :=
  slice l start (Z.of_nat (length l)).

(** A non-empty optional string: the test [if (x)] of the source. *)
Definition present (s : option jsstring) : option jsstring :=
  match s with
  | Some x => if truthy x then Some x else None
  | None => None
  end.

(** [`[${t.speaker}]: ${t.text}`] *)
Definition renderTurn (t0 : Turn) : jsstring :=
  str "[" ++ speaker t0 ++ str "]: " ++ text t0.

Definition turnMessage (t0 : Turn) : Message :=
  if isAgent t0 then {| role := assistant; content := text t0 |}
  else {| role := user; content := renderTurn t0 |}.

Definition newline : jsstring := [10%N].

Definition memoryMessage (memoryContext : jsstring) : Message :=
  {| role := system;
     content := str "Relevant context from past conversations:"
                ++ newline ++ memoryContext |}.

Definition summaryMessage (s : jsstring) : Message :=
  {| role := system;
     content := str "Conversation summary so far:" ++ newline ++ s |}.

Definition buildMessages (memoryContext : option jsstring) (c : t)
    : list Message :=
  let messages := [{| role := system; content := instructions c |}] in
  let messages :=
    match present memoryContext with
    | Some m => messages ++ [memoryMessage m]
    | None => messages
    end in
  let messages :=
    match present (summary c) with
    | Some s => messages ++ [summaryMessage s]
    | None => messages
    end in
  let turnsToInclude :=
    match present (summary c) with
    | Some _ => sliceFrom (turns c) (- recentTurnsToKeep c)
    | None => turns c
    end in
  messages ++ List.map turnMessage turnsToInclude.

Definition shouldSummarize (c : t) : bool :=
  let totalTokens :=
    fold_left (fun acc t0 => (acc + estimateTokens (text t0) + 10)%Z)
      (turns c) (estimateTokens (instructions c)) in
  (maxContextTokens c <? totalTokens)%Z.

(** The early return of [summarize]. *)
Definition nothingToSummarize (c : t) : bool :=
  (Z.of_nat (length (turns c)) <=? recentTurnsToKeep c)%Z.

Definition summaryPrompt (c : t) : list Message :=
  let olderTurns := slice (turns c) 0 (- recentTurnsToKeep c) in
  let transcript := join newline (List.map renderTurn olderTurns) in
  [{| role := system;
      content := str
        "Summarize this conversation concisely, preserving key facts, decisions, and action items." |};
   {| role := user; content := transcript |}].

(** The body of the loop over the stream: a token chunk with a
    non-empty token is appended. *)
Definition appendToken (summaryText : jsstring) (chunk : LLMChunk)
    : jsstring :=
  match type chunk, present (token chunk) with
  | token_t, Some tok => summaryText ++ tok
  | _, _ => summaryText
  end.

(** [summarize(llm)]: the new state, and [Some e] when the returned
    promise rejects with [e]. *)
Definition summarize (llm : LLMPlugin) (c : t) : t * option JsError :=
  if nothingToSummarize c then (c, None)
  else
    match forAwait (llm (summaryPrompt c)) appendToken [] with
    | inr e => (c, Some e)
    | inl summaryText =>
        let summary' :=
          match present (summary c) with
          | Some old => old ++ newline ++ newline ++ summaryText
          | None => summaryText
          end in
        (set_turns (sliceFrom (turns c) (- recentTurnsToKeep c))
           (set_summary (Some summary') c), None)
    end.

Definition getFullTranscript (c : t) : jsstring :=
  join newline (List.map renderTurn (turns c)).

Definition reset (c : t) : t := set_turns [] (set_summary None c).

End ContextManager.

(** ** AudioOutput *)

Module AudioOutput.

(** Modelled from the spec: the class AudioOutput
    (src/room/audio-output.ts) is not among the sources.  Of the sink
    the pipeline uses [beginResponse]/[endResponse], [writeStream],
    [writeSilence], [flush] and the observable flag [playing]; the
    model keeps that flag, the response bracket and a count of what
    was asked of the sink. *)
Record t := {
  playing : bool;
  responding : bool;
  flushCount : nat;
  silences : list Z;
}.

Definition create : t :=
  {| playing := false; responding := false; flushCount := 0; silences := [] |}.

Definition beginResponse (a : t) : t :=
  {| playing := playing a; responding := true;
     flushCount := flushCount a; silences := silences a |}.

Definition endResponse (a : t) : t :=
  {| playing := playing a; responding := false;
     flushCount := flushCount a; silences := silences a |}.

Definition flush (a : t) : t :=
  {| playing := false; responding := responding a;
     flushCount := S (flushCount a); silences := silences a |}.

Definition writeSilence (durationMs : Z) (a : t) : t :=
  {| playing := playing a; responding := responding a;
     flushCount := flushCount a; silences := silences a ++ [durationMs] |}.

(** [writeStream] has been entered / has settled. *)
Definition set_playing (v : bool) (a : t) : t :=
  {| playing := v; responding := responding a;
     flushCount := flushCount a; silences := silences a |}.

End AudioOutput.

(** ** Pipeline

    The class is single-threaded: between two [await]s its code runs
    without interruption.  The model therefore has one transition per
    stretch of code between suspension points, taken when the awaited
    promise settles ([Tick]), and one per call from outside.

    What is left out: the warm-up promise is taken to have settled
    before the first turn; [audioOutput.writeSilence] and
    [llmStream.return] are awaited without anything arriving in
    between; the [beforeRespond] hook answers synchronously; the
    latency bookkeeping, the log lines, the turn detector (whose
    callback is empty) and the map of STT streams with its [running]
    flag are not modelled.
    When [Promise.all] rejects because one coroutine threw, the frame
    of [processTurn] goes on to its [catch] block and the other
    coroutine, which the source leaves running, is dropped. *)

Module Pipeline.

Inductive RespondMode := always | addressed.

Inductive AgentState := idle | listening | thinking | speaking.

Definition AgentState_eqb (a b : AgentState) : bool :=
  match a, b with
  | idle, idle | listening, listening
  | thinking, thinking | speaking, speaking => true
  | _, _ => false
  end.

(** [confidence], [language] and [sttDuration] are only passed along
    or logged, and are left out. *)
Record TranscriptionResult := { tr_text : jsstring; isFinal : bool }.

(** The events of [PipelineEvents]. *)
Inductive Event :=
| transcription (speaker : jsstring) (result : TranscriptionResult)
| sentence (text : jsstring)
| response (text : jsstring)
| agentState (state : AgentState)
| error (e : JsError).

(** What the pipeline reads of a TTS plugin besides its stream. *)
Record TTSPlugin := {
  cleanText : option (jsstring -> jsstring);
  defaultLanguage : option jsstring;
}.

Record PipelineOptions := {
  opt_tts : option TTSPlugin;
  opt_instructions : jsstring;
  opt_respondMode : option RespondMode;
  opt_agentName : option jsstring;
  opt_nameVariants : option (list jsstring);
  opt_beforeRespond : option (jsstring -> jsstring -> bool);
  opt_memory : bool;
  opt_maxContextTokens : option Z;
}.

(** The [readonly] fields. *)
Record Config := {
  tts : option TTSPlugin;
  respondMode : RespondMode;
  agentName : jsstring;
  nameVariants : list jsstring;
  beforeRespond : option (jsstring -> jsstring -> bool);
  memory : bool;
}.

(** The part of the pipeline that the interrupt callback acts on. *)
Record World := {
  audioOutput : AudioOutput.t;
  splitter : SentenceSplitter.t;
  _agentState : AgentState;
  emitted : list Event;
}.

(** Where the consumer coroutine stands. *)
Inductive ConsumerPc :=
| CNotStarted
| CWaiting                                    (* await new Promise(wakeConsumer) *)
| CWoken                                      (* that promise has been resolved *)
| CPlaying (sentence : jsstring) (firstChunk : bool)   (* await synthesizeAndPlay *)
| CDone.

(** The local variables of one response cycle of [processTurn]. *)
Record Cycle := {
  signal : nat;
  messages : list Message;
  fullResponse : jsstring;
  sentenceQueue : list jsstring;
  segBuf : list Segment;
  producerDone : bool;
  consumer : ConsumerPc;
  tFirstAudioPlayed : bool;
}.

(** The suspended frame of [processTurn] or [say], if any. *)
Inductive Task :=
| Idle
| Summarizing (text : jsstring)               (* await this.context.summarize(this.llm) *)
| SearchingMemory (text : jsstring) (signal : nat)  (* await this.memory.searchRelevant(text) *)
| Responding (c : Cycle)                      (* await Promise.all([producer(), consumer()]) *)
| Draining                                    (* await sleep(AUDIO_DRAIN_MS), processTurn *)
| Saying (text : jsstring) (signal : nat) (firstChunk : bool)  (* await this.synthesizeAndPlay, say *)
| SayDraining.                                (* await sleep(AUDIO_DRAIN_MS), say *)

Record t := {
  config : Config;
  context : ContextManager.t;
  bargeIn : BargeIn.t World;
  world : World;
  _processing : bool;
  pendingTurn : option (jsstring * jsstring);
  memoryStore : list (jsstring * jsstring * bool);
  task : Task;
  clock : Z;
}.

(** What reaches the pipeline from outside: calls of its public
    methods, events of its collaborators and the settling of the
    promises it awaits. *)
Inductive Tick :=
| Transcription (speaker : jsstring) (result : TranscriptionResult)
| Say (text : jsstring)
| Stop
| Clock (now : Z)
| SummaryStream (llm : LLMPlugin)
| MemoryResult (found : option jsstring)
| LLMNext (r : IteratorResult)
| TtsFirstAudio
| TtsEnd (r : option JsError)
| DrainElapsed.

(** *** Field updates *)

Definition set_audioOutput (a : AudioOutput.t) (w : World) : World :=
  {| audioOutput := a; splitter := splitter w;
     _agentState := _agentState w; emitted := emitted w |}.

Definition set_splitter (s : SentenceSplitter.t) (w : World) : World :=
  {| audioOutput := audioOutput w; splitter := s;
     _agentState := _agentState w; emitted := emitted w |}.

Definition set_context (c : ContextManager.t) (p : t) : t :=
  {| config := config p; context := c; bargeIn := bargeIn p;
     world := world p; _processing := _processing p;
     pendingTurn := pendingTurn p; memoryStore := memoryStore p;
     task := task p; clock := clock p |}.

Definition set_bargeIn (b : BargeIn.t World) (p : t) : t :=
  {| config := config p; context := context p; bargeIn := b;
     world := world p; _processing := _processing p;
     pendingTurn := pendingTurn p; memoryStore := memoryStore p;
     task := task p; clock := clock p |}.

Definition set_world (w : World) (p : t) : t :=
  {| config := config p; context := context p; bargeIn := bargeIn p;
     world := w; _processing := _processing p;
     pendingTurn := pendingTurn p; memoryStore := memoryStore p;
     task := task p; clock := clock p |}.

Definition set_processing (v : bool) (p : t) : t :=
  {| config := config p; context := context p; bargeIn := bargeIn p;
     world := world p; _processing := v;
     pendingTurn := pendingTurn p; memoryStore := memoryStore p;
     task := task p; clock := clock p |}.

Definition set_pendingTurn (v : option (jsstring * jsstring)) (p : t) : t :=
  {| config := config p; context := context p; bargeIn := bargeIn p;
     world := world p; _processing := _processing p;
     pendingTurn := v; memoryStore := memoryStore p;
     task := task p; clock := clock p |}.

Definition set_memoryStore (v : list (jsstring * jsstring * bool)) (p : t) : t :=
  {| config := config p; context := context p; bargeIn := bargeIn p;
     world := world p; _processing := _processing p;
     pendingTurn := pendingTurn p; memoryStore := v;
     task := task p; clock := clock p |}.

Definition set_task (v : Task) (p : t) : t :=
  {| config := config p; context := context p; bargeIn := bargeIn p;
     world := world p; _processing := _processing p;
     pendingTurn := pendingTurn p; memoryStore := memoryStore p;
     task := v; clock := clock p |}.

Definition set_clock (v : Z) (p : t) : t :=
  {| config := config p; context := context p; bargeIn := bargeIn p;
     world := world p; _processing := _processing p;
     pendingTurn := pendingTurn p; memoryStore := memoryStore p;
     task := task p; clock := v |}.

Definition set_fullResponse (v : jsstring) (c : Cycle) : Cycle :=
  {| signal := signal c; messages := messages c; fullResponse := v;
     sentenceQueue := sentenceQueue c; segBuf := segBuf c;
     producerDone := producerDone c; consumer := consumer c;
     tFirstAudioPlayed := tFirstAudioPlayed c |}.

Definition set_sentenceQueue (v : list jsstring) (c : Cycle) : Cycle :=
  {| signal := signal c; messages := messages c;
     fullResponse := fullResponse c;
     sentenceQueue := v; segBuf := segBuf c;
     producerDone := producerDone c; consumer := consumer c;
     tFirstAudioPlayed := tFirstAudioPlayed c |}.

Definition set_segBuf (v : list Segment) (c : Cycle) : Cycle :=
  {| signal := signal c; messages := messages c;
     fullResponse := fullResponse c;
     sentenceQueue := sentenceQueue c; segBuf := v;
     producerDone := producerDone c; consumer := consumer c;
     tFirstAudioPlayed := tFirstAudioPlayed c |}.

Definition set_producerDone (v : bool) (c : Cycle) : Cycle :=
  {| signal := signal c; messages := messages c;
     fullResponse := fullResponse c;
     sentenceQueue := sentenceQueue c; segBuf := segBuf c;
     producerDone := v; consumer := consumer c;
     tFirstAudioPlayed := tFirstAudioPlayed c |}.

Definition set_consumer (v : ConsumerPc) (c : Cycle) : Cycle :=
  {| signal := signal c; messages := messages c;
     fullResponse := fullResponse c;
     sentenceQueue := sentenceQueue c; segBuf := segBuf c;
     producerDone := producerDone c; consumer := v;
     tFirstAudioPlayed := tFirstAudioPlayed c |}.

Definition set_tFirstAudioPlayed (v : bool) (c : Cycle) : Cycle :=
  {| signal := signal c; messages := messages c;
     fullResponse := fullResponse c;
     sentenceQueue := sentenceQueue c; segBuf := segBuf c;
     producerDone := producerDone c; consumer := consumer c;
     tFirstAudioPlayed := v |}.

Definition onWorld (f : World -> World) (p : t) : t :=
  set_world (f (world p)) p.

Definition onAudio (f : AudioOutput.t -> AudioOutput.t) (p : t) : t :=
  onWorld (fun w => set_audioOutput (f (audioOutput w)) w) p.

(** *** Events and agent state *)

(** [this.emit(...)] *)
Definition emit (e : Event) (w : World) : World :=
  {| audioOutput := audioOutput w; splitter := splitter w;
     _agentState := _agentState w; emitted := emitted w ++ [e] |}.

Definition setAgentState (state : AgentState) (w : World) : World :=
  if AgentState_eqb (_agentState w) state then w
  else emit (agentState state)
         {| audioOutput := audioOutput w; splitter := splitter w;
            _agentState := state; emitted := emitted w |}.

(** The callback the constructor hands to [bargeIn.onInterrupt]. *)
Definition onInterrupt (w : World) : World :=
  let w1 := set_audioOutput (AudioOutput.flush (audioOutput w)) w in
  let w2 := set_splitter (SentenceSplitter.reset (splitter w1)) w1 in
  setAgentState idle w2.

(** [this.bargeIn.trigger()] *)
Definition triggerBargeIn (p : t) : t :=
  let '(b, w) := BargeIn.trigger (bargeIn p) (world p) in
  set_world w (set_bargeIn b p).

(** [signal.aborted] for a signal of this pipeline's controller. *)
Definition signalAborted (p : t) (sig : nat) : bool :=
  BargeIn.aborted (bargeIn p) sig.

(** [this.cleanText(text)] *)
Definition cleanTextOf (cfg : Config) (text : jsstring) : jsstring :=
  match tts cfg with
  | Some plugin =>
      match cleanText plugin with
      | Some f => f text
      | None => text
      end
  | None => text
  end.

(** [this.memory?.storeTurn(...)]: the calls the collaborator gets. *)
Definition storeTurn (who words : jsstring) (agent : bool) (p : t) : t :=
  if memory (config p)
  then set_memoryStore (memoryStore p ++ [(who, words, agent)]) p
  else p.

Section WithBuiltins.

(** [String.prototype.toLowerCase], taken as given. *)
Variable toLowerCase : jsstring -> jsstring.

(** *** Constructor *)

Definition create (options : PipelineOptions) : t :=
  {| config :=
       {| tts := opt_tts options;
          respondMode := default always (opt_respondMode options);
          agentName := toLowerCase (default (str "assistant") (opt_agentName options));
          nameVariants := List.map toLowerCase (default [] (opt_nameVariants options));
          beforeRespond := opt_beforeRespond options;
          memory := opt_memory options |};
     context :=
       ContextManager.create
         {| ContextManager.opt_instructions := opt_instructions options;
            ContextManager.opt_maxContextTokens := opt_maxContextTokens options;
            ContextManager.opt_recentTurnsToKeep := None |};
     bargeIn := BargeIn.set_onInterrupt (Some onInterrupt) BargeIn.create;
     world :=
       {| audioOutput := AudioOutput.create;
          splitter := SentenceSplitter.create;
          _agentState := idle;
          emitted := [] |};
     _processing := false;
     pendingTurn := None;
     memoryStore := [];
     task := Idle;
     clock := 0 |}.

(** *** shouldRespond *)

Definition shouldRespond (cfg : Config) (speaker text : jsstring) : bool :=
  match respondMode cfg with
  | always => true
  | addressed =>
      let lower := toLowerCase text in
      let nameMatch :=
        includes lower (agentName cfg)
        || existsb (fun v => includes lower v) (nameVariants cfg) in
      if negb nameMatch then false
      else
        match beforeRespond cfg with
        | Some hook => hook speaker text
        | None => true
        end
  end.

(** *** The response cycle

    The producer and the consumer of [processTurn] are two coroutines
    over the cycle's local variables.  Each function below is the code
    one of them runs between two suspension points. *)

(** /\w/ *)
Definition wordRe : regex := [One is_word].

Definition is_closer (c : N) : bool :=
  ((c =? 34) || (c =? 39) || (c =? 187) || (c =? 41))%N.
(* double quote, single quote, U+00BB, closing parenthesis *)

(** The pattern of the segment test: a terminator, any number of
    closing quotes or parentheses, white space, the end of the text. *)
Definition segmentEndRe : regex :=
  [One SentenceSplitter.is_terminator; Many is_closer; Many is_space; AtEnd].

(** [wake()]: resolves the promise the consumer is blocked on, if any. *)
Definition wake (c : Cycle) : Cycle :=
  match consumer c with
  | CWaiting => set_consumer CWoken c
  | _ => c
  end.

Definition pushSentence (aborted : bool) (text : jsstring) (c : Cycle)
    : Cycle :=
  if aborted then c
  else wake (set_sentenceQueue (sentenceQueue c ++ [text]) c).

(** The segment wrapped in a [lang] element carrying its language as
    the [xml:lang] attribute, unless it is in the default language. *)
Definition wrapSegment (defaultLang : option jsstring) (s : Segment)
    : jsstring :=
  if bool_decide (Some (lang s) = defaultLang) then seg_text s
  else str "<lang xml:lang=" ++ [dquote] ++ lang s ++ [dquote] ++ str ">"
       ++ seg_text s ++ str "</lang>".

Definition defaultLang (cfg : Config) : option jsstring :=
  match tts cfg with
  | Some plugin => defaultLanguage plugin
  | None => None
  end.

Definition flushSegments (cfg : Config) (aborted : bool) (c : Cycle)
    : Cycle :=
  match segBuf c with
  | [] => c
  | _ :: _ =>
      let combined :=
        join (str " ") (List.map (wrapSegment (defaultLang cfg)) (segBuf c)) in
      pushSentence aborted combined (set_segBuf [] c)
  end.

(** The body of the producer's loop for one chunk. *)
Definition producerChunk (chunk : LLMChunk) (p : t) (c : Cycle)
    : t * Cycle :=
  let aborted := signalAborted p (signal c) in
  match type chunk, segment chunk, ContextManager.present (token chunk) with
  | segment_t, Some seg, _ =>
      let c1 :=
        set_fullResponse
          ((if truthy (fullResponse c) then fullResponse c ++ str " "
            else fullResponse c) ++ seg_text seg) c in
      let c2 := set_segBuf (segBuf c1 ++ [seg]) c1 in
      (p, if test segmentEndRe (seg_text seg)
          then flushSegments (config p) aborted c2 else c2)
  | token_t, _, Some tok =>
      let c1 := set_fullResponse (fullResponse c ++ tok) c in
      let '(sentences, sp) := SentenceSplitter.push (splitter (world p)) tok in
      (onWorld (set_splitter sp) p,
       fold_left (fun c' s => pushSentence aborted s c') sentences c1)
  | _, _, _ => (p, c)
  end.

(** The producer after its loop: the stream is closed, what is left is
    flushed unless the cycle was cancelled, and the consumer is woken. *)
Definition producerExit (p : t) (c : Cycle) : t * Cycle :=
  let aborted := signalAborted p (signal c) in
  let '(p1, c1) :=
    if aborted then (p, c)
    else
      let c1 := flushSegments (config p) aborted c in
      let '(remaining, sp) := SentenceSplitter.flush (splitter (world p)) in
      (onWorld (set_splitter sp) p,
       match ContextManager.present remaining with
       | Some r => pushSentence aborted r c1
       | None => c1
       end) in
  (p1, wake (set_producerDone true c1)).

(** The consumer's [finally] block. *)
Definition consumerExit (p : t) (c : Cycle) : t * Cycle :=
  let p1 :=
    if signalAborted p (signal c) then p
    else onAudio (AudioOutput.writeSilence 40) p in
  (onAudio AudioOutput.endResponse p1, set_consumer CDone c).

(** The consumer's loop from its top, looking at [queue], up to its next
    suspension point. *)
Fixpoint consumerLoop (queue : list jsstring) (p : t) (c : Cycle)
    : t * Cycle :=
  if signalAborted p (signal c) then consumerExit p (set_sentenceQueue queue c)
  else
    match queue with
    | s0 :: rest =>
        if negb (test wordRe s0) then consumerLoop rest p c
        else if negb (bool_decide (is_Some (tts (config p))))
                || signalAborted p (signal c)
        then consumerLoop rest p c
        else (onAudio (AudioOutput.set_playing true) p,
              set_consumer (CPlaying s0 true) (set_sentenceQueue rest c))
    | [] =>
        if producerDone c then consumerExit p (set_sentenceQueue [] c)
        else (p, set_consumer CWaiting (set_sentenceQueue [] c))
    end.

(** The consumer runs again once its promise has been resolved. *)
Definition resumeConsumer (p : t) (c : Cycle) : t * Cycle :=
  match consumer c with
  | CWoken => consumerLoop (sentenceQueue c) p c
  | _ => (p, c)
  end.

Definition consumerFinished (c : Cycle) : bool :=
  match consumer c with CDone => true | _ => false end.

(** After [Promise.all] has resolved: the response is recorded and the
    drain delay starts. *)
Definition cycleResolved (p : t) (c : Cycle) : t :=
  let full := trim (fullResponse c) in
  let p1 :=
    if truthy full then
      let p2 := set_context (ContextManager.addAgentTurn (clock p) full (context p)) p in
      let p3 := storeTurn (str "assistant") full true p2 in
      onWorld (emit (response (cleanTextOf (config p) full))) p3
    else p in
  set_task Draining p1.

(** Either both coroutines have returned, or the frame stays suspended
    on [Promise.all]. *)
Definition settle (pc : t * Cycle) : t :=
  let '(p, c) := pc in
  if producerDone c && consumerFinished c then cycleResolved p c
  else set_task (Responding c) p.

(** From [buildMessages] to the first suspension of both coroutines. *)
Definition beginCycle (sig : nat) (memoryContext : jsstring) (p : t) : t :=
  let msgs :=
    ContextManager.buildMessages (ContextManager.present (Some memoryContext))
      (context p) in
  let p1 := onWorld (setAgentState thinking) p in
  let c0 :=
    {| signal := sig; messages := msgs; fullResponse := [];
       sentenceQueue := []; segBuf := []; producerDone := false;
       consumer := CNotStarted; tFirstAudioPlayed := false |} in
  let '(p2, c1) :=
    if signalAborted p1 sig then producerExit p1 c0 else (p1, c0) in
  let p3 := onAudio AudioOutput.beginResponse p2 in
  settle (consumerLoop (sentenceQueue c1) p3 c1).

(** [processTurn] after [summarize]. *)
Definition afterSummarize (text : jsstring) (p : t) : t :=
  let '(sig, b) := BargeIn.startCycle (bargeIn p) in
  let p1 := set_bargeIn b p in
  if memory (config p1) then set_task (SearchingMemory text sig) p1
  else beginCycle sig [] p1.

(** [processTurn] when no cycle is in progress, up to its first
    suspension. *)
Definition startTurn (speaker text : jsstring) (p : t) : t :=
  let p1 := set_processing true p in
  let p2 :=
    set_context (ContextManager.addUserTurn (clock p1) speaker text (context p1))
      p1 in
  if ContextManager.shouldSummarize (context p2)
     && negb (ContextManager.nothingToSummarize (context p2))
  then set_task (Summarizing text) p2
  else afterSummarize text p2.

Definition processTurn (speaker text : jsstring) (p : t) : t :=
  if _processing p then
    triggerBargeIn (set_pendingTurn (Some (speaker, text)) p)
  else startTurn speaker text p.

(** The pending turn, if any, is taken out of its slot and started. *)
Definition drainPending (p : t) : t :=
  match pendingTurn p with
  | Some (nextSpeaker, nextText) =>
      processTurn nextSpeaker nextText (set_pendingTurn None p)
  | None => p
  end.

(** The [finally] block of [processTurn]. *)
Definition finallyTurn (p : t) : t :=
  let p1 := set_task Idle (set_processing false p) in
  let p2 := set_bargeIn (BargeIn.reset (bargeIn p1)) p1 in
  drainPending p2.

(** The [catch] block of [processTurn] and of [say]. *)
Definition catchError (e : JsError) (p : t) : t :=
  if isAbortError e then p else onWorld (emit (error e)) p.

(** An exception leaves the [try] block of [processTurn]. *)
Definition turnFailed (e : JsError) (p : t) : t :=
  finallyTurn (catchError e p).

(** The [finally] block of [say]. *)
Definition finallySay (p : t) : t :=
  let p1 := set_task Idle (set_processing false p) in
  let p2 := onAudio AudioOutput.endResponse p1 in
  let p3 := set_bargeIn (BargeIn.reset (bargeIn p2)) p2 in
  drainPending p3.

(** [say] after [synthesizeAndPlay] has returned. *)
Definition sayAfter (text : jsstring) (sig : nat) (p : t) : t :=
  let p1 :=
    if signalAborted p sig then p
    else
      let p2 := onAudio (AudioOutput.writeSilence 40) p in
      let p3 := set_context (ContextManager.addAgentTurn (clock p2) text (context p2)) p2 in
      let p4 := storeTurn (str "assistant") text true p3 in
      onWorld (emit (response (cleanTextOf (config p) text))) p4 in
  set_task SayDraining p1.

Definition say (text : jsstring) (p : t) : t :=
  if _processing p then p
  else
    let p1 := set_processing true p in
    let '(sig, b) := BargeIn.startCycle (bargeIn p1) in
    let p2 := onAudio AudioOutput.beginResponse (set_bargeIn b p1) in
    let p3 := onWorld (setAgentState thinking) p2 in
    if negb (bool_decide (is_Some (tts (config p3)))) || signalAborted p3 sig
    then sayAfter text sig p3
    else set_task (Saying text sig true)
           (onAudio (AudioOutput.set_playing true) p3).

Definition handleTranscription (speaker : jsstring)
    (result : TranscriptionResult) (p : t) : t :=
  let trimmed := trim (tr_text result) in
  let p1 := onWorld (emit (transcription speaker result)) p in
  let p2 :=
    if negb (isFinal result) && truthy trimmed
    then onWorld (setAgentState listening) p1 else p1 in
  let p3 :=
    if AudioOutput.playing (audioOutput (world p2)) && (0 <? length trimmed)
    then triggerBargeIn p2 else p2 in
  if isFinal result && truthy trimmed then
    let p4 := storeTurn speaker trimmed false p3 in
    if shouldRespond (config p4) speaker trimmed
    then processTurn speaker trimmed p4
    else onWorld (setAgentState idle) p4
  else if isFinal result then onWorld (setAgentState idle) p3
  else p3.

(** [stop()], without the bookkeeping of the STT streams. *)
Definition stop (p : t) : t :=
  let p1 := set_bargeIn (BargeIn.reset (bargeIn p)) p in
  onWorld (fun w => set_splitter (SentenceSplitter.reset (splitter w)) w) p1.

(** *** Resuming the suspended frame *)

(** [llmStream.next()] has settled. *)
Definition onLLMNext (r : IteratorResult) (p : t) (c : Cycle) : t :=
  match r with
  | NextThrow e => turnFailed e p
  | NextDone => let '(p1, c1) := producerExit p c in settle (resumeConsumer p1 c1)
  | NextYield chunk =>
      if signalAborted p (signal c) then
        let '(p1, c1) := producerExit p c in settle (resumeConsumer p1 c1)
      else
        let '(p1, c1) := producerChunk chunk p c in
        settle (resumeConsumer p1 c1)
  end.

(** The first audio chunk of the sentence being played has arrived. *)
Definition onFirstAudio (sentence0 : jsstring) (p : t) (c : Cycle) : t :=
  let p1 :=
    if tFirstAudioPlayed c then p else onWorld (setAgentState speaking) p in
  let p2 := onWorld (emit (sentence (cleanTextOf (config p) sentence0))) p1 in
  set_task
    (Responding (set_consumer (CPlaying sentence0 false)
                   (set_tFirstAudioPlayed true c))) p2.

(** [audioOutput.writeStream] has settled inside [synthesizeAndPlay]. *)
Definition onTtsEnd (r : option JsError) (p : t) (c : Cycle) : t :=
  let p1 := onAudio (AudioOutput.set_playing false) p in
  match r with
  | Some e =>
      if isAbortError e then settle (consumerLoop (sentenceQueue c) p1 c)
      else turnFailed e (fst (consumerExit p1 c))
  | None => settle (consumerLoop (sentenceQueue c) p1 c)
  end.

Definition step (p : t) (tick : Tick) : t :=
  match tick with
  | Transcription speaker result => handleTranscription speaker result p
  | Say text => say text p
  | Stop => stop p
  | Clock now => set_clock now p
  | SummaryStream llm =>
      match task p with
      | Summarizing text =>
          let '(ctx, err) := ContextManager.summarize llm (context p) in
          match err with
          | Some e => turnFailed e (set_context ctx p)
          | None => afterSummarize text (set_context ctx p)
          end
      | _ => p
      end
  | MemoryResult found =>
      match task p with
      | SearchingMemory text sig => beginCycle sig (default [] found) p
      | _ => p
      end
  | LLMNext r =>
      match task p with
      | Responding c => if producerDone c then p else onLLMNext r p c
      | _ => p
      end
  | TtsFirstAudio =>
      match task p with
      | Responding c =>
          match consumer c with
          | CPlaying s0 true => onFirstAudio s0 p c
          | _ => p
          end
      | Saying text sig true =>
          let p1 := onWorld (setAgentState speaking) p in
          let p2 := onWorld (emit (sentence (cleanTextOf (config p) text))) p1 in
          set_task (Saying text sig false) p2
      | _ => p
      end
  | TtsEnd r =>
      match task p with
      | Responding c =>
          match consumer c with
          | CPlaying _ _ => onTtsEnd r p c
          | _ => p
          end
      | Saying text sig _ =>
          let p1 := onAudio (AudioOutput.set_playing false) p in
          match r with
          | Some e =>
              if isAbortError e then sayAfter text sig p1
              else finallySay (catchError e p1)
          | None => sayAfter text sig p1
          end
      | _ => p
      end
  | DrainElapsed =>
      match task p with
      | Draining => finallyTurn (onWorld (setAgentState idle) p)
      | SayDraining => finallySay (onWorld (setAgentState idle) p)
      | _ => p
      end
  end.

(** A run of the pipeline: the ticks are taken in order. *)
Definition run (p : t) (ticks : list Tick) : t := fold_left step ticks p.

End WithBuiltins.

(** ASCII lower-casing, to run the model on ASCII text. *)
Definition asciiLower (s : jsstring) : jsstring :=
  List.map (fun c => if ((65 <=? c) && (c <=? 90))%N then (c + 32)%N else c) s.

End Pipeline.

(** ** TurnDetector (src/core/turn-detector.ts)

    The detector and the timers of its host: [setTimeout] and
    [clearTimeout] act on a table of timers, and the passing of time
    is a call of [elapse]. *)

Module TurnDetector.

Section WithWorld.

(** Whatever the turn-end callback acts on; the callback is taken not
    to call back into the detector. *)
Context {W : Type}.

(** [timers] is the host's table of the timers created by
    [setTimeout]: a timer is known by its index and holds its deadline
    until it has fired or has been cleared. *)
Record t := {
  silenceTimeoutMs : Z;
  silenceTimer : option nat;
  _onTurnEnd : option (W -> W);
  lastFinalText : jsstring;
  timers : list (option Z);
}.

Record TurnDetectorOptions := { opt_silenceTimeoutMs : option Z }.

Definition create (options : TurnDetectorOptions) : t :=
  {| silenceTimeoutMs := default 800%Z (opt_silenceTimeoutMs options);
     silenceTimer := None; _onTurnEnd := None; lastFinalText := [];
     timers := [] |}.

Definition set_onTurnEnd (cb : option (W -> W)) (d : t) : t :=
  {| silenceTimeoutMs := silenceTimeoutMs d; silenceTimer := silenceTimer d;
     _onTurnEnd := cb; lastFinalText := lastFinalText d; timers := timers d |}.

(** A handle is never falsy, so that [if (this.silenceTimer)] asks
    whether there is one. *)
Definition clearTimer (d : t) : t :=
  match silenceTimer d with
  | Some h =>
      {| silenceTimeoutMs := silenceTimeoutMs d; silenceTimer := None;
         _onTurnEnd := _onTurnEnd d; lastFinalText := lastFinalText d;
         timers := <[h := None]> (timers d) |}
  | None => d
  end.

(** [this._onTurnEnd?.()] *)
Definition turnEnd (d : t) (w : W) : W :=
  match _onTurnEnd d with
  | Some cb => cb w
  | None => w
  end.

(** [now] is the time of the call, from which [setTimeout] counts. *)
Definition handleTranscription (now : Z) (text : jsstring) (isFinal : bool)
    (d : t) : bool * t :=
  let d1 := clearTimer d in
  if isFinal && (0 <? length (trim text)) then
    (false,
     {| silenceTimeoutMs := silenceTimeoutMs d1;
        silenceTimer := Some (length (timers d1));
        _onTurnEnd := _onTurnEnd d1; lastFinalText := text;
        timers := timers d1 ++ [Some (now + silenceTimeoutMs d1)%Z] |})
  else
    (false,
     if negb isFinal && (0 <? length (trim text)) then clearTimer d1 else d1).

Definition forceTurnEnd (d : t) (w : W) : t * W :=
  let d1 := clearTimer d in (d1, turnEnd d1 w).

Definition reset (d : t) : t :=
  let d1 := clearTimer d in
  {| silenceTimeoutMs := silenceTimeoutMs d1; silenceTimer := silenceTimer d1;
     _onTurnEnd := _onTurnEnd d1; lastFinalText := [];
     timers := timers d1 |}.

(** The host at time [now]: every timer whose deadline has come runs
    its callback and is spent. *)
Fixpoint fireDue (now : Z) (cb : W -> W) (ts : list (option Z)) (w : W)
    : list (option Z) * W :=
  match ts with
  | [] => ([], w)
  | Some deadline :: rest =>
      if (deadline <=? now)%Z then
        let '(rest', w') := fireDue now cb rest (cb w) in (None :: rest', w')
      else
        let '(rest', w') := fireDue now cb rest w in (Some deadline :: rest', w')
  | None :: rest =>
      let '(rest', w') := fireDue now cb rest w in (None :: rest', w')
  end.

Definition elapse (now : Z) (d : t) (w : W) : t * W :=
  let '(ts, w') := fireDue now (turnEnd d) (timers d) w in
  ({| silenceTimeoutMs := silenceTimeoutMs d; silenceTimer := silenceTimer d;
      _onTurnEnd := _onTurnEnd d; lastFinalText := lastFinalText d;
      timers := ts |}, w').

End WithWorld.

Arguments t W : clear implicits.

End TurnDetector.

(** ** RoomMemory (src/memory/room-memory.ts)

    The queue of turns that wait to be embedded, and the flush that
    embeds a batch and inserts it into the store.  [flushPending] is
    cut at its one suspension point, the call of
    [embedder.embedBatch]; the interval timer that [startSession]
    starts is left to the environment, which calls [flushPending]
    when it fires.  Of the store (src/memory/memory-store.ts)
    the two tables that [insertTurn] writes are kept, each as the list
    of its rows in the order of insertion; the row ids and the
    timestamps are left out.  The search and the end of a session are
    not modelled. *)

Module RoomMemory.

Section WithEmbedding.

(** [Float32Array] *)
Context {Embedding : Type}.

Record PendingTurn := {
  speaker : jsstring;
  text : jsstring;
  isAgent : bool;
}.

(** A row of the table [turns], and the table [turn_vectors]. *)
Record TurnRow := {
  row_room : jsstring;
  row_session_id : jsstring;
  row_speaker : jsstring;
  row_text : jsstring;
  row_is_agent : bool;
}.

Record MemoryStore := {
  turnRows : list TurnRow;
  turnVectors : list (nat * Embedding);
  sessionRows : list (jsstring * jsstring);
}.

(** [store.insertTurn]: the new store, and whether the call threw.
    The column [session_id] is declared NOT NULL, so the first
    statement throws for [null]; the second one cannot be built
    without an embedding. *)
Definition insertTurn (room : jsstring) (sessionId : option jsstring)
    (turn : PendingTurn) (embedding : option Embedding) (s : MemoryStore)
    : MemoryStore * bool :=
  match sessionId with
  | None => (s, true)
  | Some id =>
      let row :=
        {| row_room := room; row_session_id := id;
           row_speaker := speaker turn; row_text := text turn;
           row_is_agent := isAgent turn |} in
      let rows := turnRows s ++ [row] in
      match embedding with
      | None =>
          ({| turnRows := rows; turnVectors := turnVectors s;
              sessionRows := sessionRows s |}, true)
      | Some e =>
          ({| turnRows := rows;
              turnVectors := turnVectors s ++ [(length rows, e)];
              sessionRows := sessionRows s |}, false)
      end
  end.

(** The model behind the embedder, as one batch sees it: [None] when
    it cannot be loaded, otherwise its answer to each text, which may
    be a rejection. *)
Definition Model := option (jsstring -> option Embedding).

(** The loop of [Embedder.embedBatch]. *)
Fixpoint embedEach (f : jsstring -> option Embedding) (texts : list jsstring)
    : option (list Embedding) :=
  match texts with
  | [] => Some []
  | t0 :: rest =>
      match f t0 with
      | Some e =>
          match embedEach f rest with
          | Some es => Some (e :: es)
          | None => None
          end
      | None => None
      end
  end.

(** [embedder.embedBatch(texts)]: [None] when the promise rejects. *)
Definition embedBatch (model : Model) (texts : list jsstring)
    : option (list Embedding) :=
  match texts with
  | [] => Some []
  | _ :: _ =>
      match model with
      | Some f => embedEach f texts
      | None => None
      end
  end.

(** [inflight] is the local variable [batch] of the suspended frame of
    [flushPending], if there is one. *)
Record t := {
  store : MemoryStore;
  room : jsstring;
  sessionId : option jsstring;
  participants : list jsstring;
  pendingTurns : list PendingTurn;
  flushing : bool;
  inflight : option (list PendingTurn);
}.

Definition create (roomName : jsstring) : t :=
  {| store := {| turnRows := []; turnVectors := []; sessionRows := [] |};
     room := roomName; sessionId := None; participants := [];
     pendingTurns := []; flushing := false; inflight := None |}.

(** [uuid] is what [randomUUID()] returns. *)
Definition startSession (uuid : jsstring) (m : t) : t :=
  {| store :=
       {| turnRows := turnRows (store m);
          turnVectors := turnVectors (store m);
          sessionRows := sessionRows (store m) ++ [(uuid, room m)] |};
     room := room m; sessionId := Some uuid; participants := [];
     pendingTurns := pendingTurns m; flushing := flushing m;
     inflight := inflight m |}.

(** [participants] is a [Set], kept in the order of insertion. *)
Definition addParticipant (identity : jsstring) (m : t) : t :=
  {| store := store m; room := room m; sessionId := sessionId m;
     participants :=
       if bool_decide (identity ∈ participants m) then participants m
       else participants m ++ [identity];
     pendingTurns := pendingTurns m; flushing := flushing m;
     inflight := inflight m |}.

(** [flushPending] up to [await this.embedder.embedBatch(texts)].
    The session id is tested for truth, so that the empty string
    counts as no session. *)
Definition flushPending (m : t) : t :=
  if flushing m || bool_decide (pendingTurns m = [])
     || negb (bool_decide (is_Some (ContextManager.present (sessionId m))))
  then m
  else
    {| store := store m; room := room m; sessionId := sessionId m;
       participants := participants m;
       pendingTurns := []; flushing := true;
       inflight := Some (pendingTurns m) |}.

Definition storeTurn (who words : jsstring) (agent : bool) (m : t) : t :=
  match ContextManager.present (sessionId m) with
  | None => m
  | Some _ =>
      let m1 :=
        {| store := store m; room := room m; sessionId := sessionId m;
           participants := participants m;
           pendingTurns :=
             pendingTurns m
             ++ [{| speaker := who; text := words; isAgent := agent |}];
           flushing := flushing m; inflight := inflight m |} in
      if 5 <=? length (pendingTurns m1) then flushPending m1 else m1
  end.

(** The loop over the batch: it stops at the first insertion that
    throws. *)
Fixpoint insertBatch (roomName : jsstring) (sid : option jsstring)
    (batch : list PendingTurn) (embeddings : list Embedding) (i : nat)
    (s : MemoryStore) : MemoryStore * bool :=
  match batch with
  | [] => (s, false)
  | turn :: rest =>
      let '(s1, threw) := insertTurn roomName sid turn (embeddings !! i) s in
      if threw then (s1, true)
      else insertBatch roomName sid rest embeddings (S i) s1
  end.

(** [`[${t.speaker}]: ${t.text}`] *)
Definition renderPending (turn : PendingTurn) : jsstring :=
  str "[" ++ speaker turn ++ str "]: " ++ text turn.

(** [flushPending] from the moment [embedBatch] has settled. *)
Definition flushSettled (model : Model) (m : t) : t :=
  match inflight m with
  | None => m
  | Some batch =>
      let texts := List.map renderPending batch in
      let '(store', failed) :=
        match embedBatch model texts with
        | Some embeddings =>
            insertBatch (room m) (sessionId m) batch embeddings 0 (store m)
        | None => (store m, true)
        end in
      {| store := store'; room := room m; sessionId := sessionId m;
         participants := participants m;
         pendingTurns :=
           if failed then batch ++ pendingTurns m else pendingTurns m;
         flushing := false; inflight := None |}
  end.

End WithEmbedding.

Arguments MemoryStore Embedding : clear implicits.
Arguments Model Embedding : clear implicits.
Arguments t Embedding : clear implicits.

End RoomMemory.

(** * Notions used in the statements *)

Section SplitterNotions.

Import SentenceSplitter.

(** Each rule cuts the buffer at some offset [n >= MIN_CHUNK] and emits
    the trimmed front part. *)
Definition cut_at (n : nat) (b chunk rest : jsstring) : Prop :=
  MIN_CHUNK <= n /\ chunk = trim (take n b) /\ rest = drop n b.

End SplitterNotions.

(** A callback that also counts how often it is called. *)
Definition counting {W} (cb : W -> W) (w : nat * W) : nat * W :=
  (S (fst w), cb (snd w)).

(** [n] calls of [trigger] in a row. *)
Fixpoint triggerTimes {W} (n : nat) (b : BargeIn.t W) (w : W)
    : BargeIn.t W * W :=
  match n with
  | 0 => (b, w)
  | S n' => let '(b', w') := BargeIn.trigger b w in triggerTimes n' b' w'
  end.

Fixpoint sumZ (l : list Z) : Z :=
  match l with
  | [] => 0
  | x :: l' => x + sumZ l'
  end.

(** The ceiling of [n / 4], by the usual formula on naturals. *)
Definition ceilDiv4 (n : nat) : Z := Z.of_nat ((n + 3) / 4).

(** Inputs for the properties of [summarize]. *)

Definition tutor (keep : option Z) : ContextManager.t :=
  ContextManager.addUserTurn 2 (str "Alice") (str "Second question")
    (ContextManager.addAgentTurn 1 (str "First answer")
       (ContextManager.addUserTurn 0 (str "Alice") (str "First question")
          (ContextManager.create
             {| ContextManager.opt_instructions := str "You are a helpful tutor.";
                ContextManager.opt_maxContextTokens := Some 50%Z;
                ContextManager.opt_recentTurnsToKeep := keep |}))).

Definition summaryLLM : LLMPlugin :=
  fun _ => {| chunks := [tokenChunk (str "Summary of the conversation so far."); doneChunk];
              failure := None |}.

Definition failingLLM : LLMPlugin :=
  fun _ => {| chunks := [tokenChunk (str "Summary of the")];
              failure := Some (plainError (str "socket hang up")) |}.

Section PipelineNotions.

Import Pipeline.

(** [p'] differs from [p] at most in what is heard, said and stored,
    and in the barge-in controller. *)
Definition quiet (p p' : t) : Prop :=
  config p' = config p /\ context p' = context p /\
  _processing p' = _processing p /\ pendingTurn p' = pendingTurn p /\
  task p' = task p /\ clock p' = clock p.






(** The ticks that settle a promise the pipeline is waiting for. *)
Definition settles (tick : Tick) : bool :=
  match tick with
  | SummaryStream _ | MemoryResult _ | LLMNext _
  | TtsFirstAudio | TtsEnd _ | DrainElapsed => true
  | Transcription _ _ | Say _ | Stop | Clock _ => false
  end.

End PipelineNotions.

(** Runs of the pipeline. *)

Definition demoOptions : Pipeline.PipelineOptions :=
  {| Pipeline.opt_tts :=
       Some {| Pipeline.cleanText := None; Pipeline.defaultLanguage := None |};
     Pipeline.opt_instructions := str "You are a helpful assistant.";
     Pipeline.opt_respondMode := None;
     Pipeline.opt_agentName := None;
     Pipeline.opt_nameVariants := None;
     Pipeline.opt_beforeRespond := None;
     Pipeline.opt_memory := false;
     Pipeline.opt_maxContextTokens := None |}.

Definition demo : Pipeline.t := Pipeline.create Pipeline.asciiLower demoOptions.

(** The same with a memory collaborator. *)
Definition demoWithMemory : Pipeline.t :=
  Pipeline.create Pipeline.asciiLower
    {| Pipeline.opt_tts := Pipeline.opt_tts demoOptions;
       Pipeline.opt_instructions := Pipeline.opt_instructions demoOptions;
       Pipeline.opt_respondMode := None;
       Pipeline.opt_agentName := None;
       Pipeline.opt_nameVariants := None;
       Pipeline.opt_beforeRespond := None;
       Pipeline.opt_memory := true;
       Pipeline.opt_maxContextTokens := None |}.

Definition finalTranscript (who words : string) : Pipeline.Tick :=
  Pipeline.Transcription (str who)
    {| Pipeline.tr_text := str words; Pipeline.isFinal := true |}.


(** The same when the pipeline has a memory collaborator, whose
    search finds nothing. *)
Definition bargeInMemoryScript : list Pipeline.Tick :=
  [finalTranscript "user1" "First question";
   Pipeline.MemoryResult (Some []);
   Pipeline.LLMNext (NextYield (tokenChunk (str "Word1")));
   finalTranscript "user1" "Actually nevermind, new question.";
   Pipeline.LLMNext NextDone].

(** The stream of the answer throws on its first read. *)
Definition llmFailureScript : list Pipeline.Tick :=
  [finalTranscript "user1" "Hello there";
   Pipeline.LLMNext (NextThrow (plainError (str "LLM request failed")))].

(** The audio stream of [say] throws. *)
Definition sayFailureScript : list Pipeline.Tick :=
  [Pipeline.Say (str "Welcome to the room.");
   Pipeline.TtsEnd (Some (plainError (str "TTS connection lost")))].

(** Inputs taken from the test suites. *)

Section TestInputs.

Import ContextManager.

Definition helpful : t :=
  create {| opt_instructions := str "You are a helpful tutor.";
            opt_maxContextTokens := None; opt_recentTurnsToKeep := None |}.

End TestInputs.

Section PipelineTestInputs.

Import Pipeline.

Definition events (p : t) : list Event := emitted (world p).

Definition answer : list Tick :=
  [LLMNext (NextYield (tokenChunk (str "This is a test response")));
   LLMNext (NextYield (tokenChunk (str " that is long enough to be a sentence.")));
   LLMNext (NextYield doneChunk);
   LLMNext NextDone].

Definition fullText : jsstring :=
  str "This is a test response that is long enough to be a sentence.".

Definition addressedOptions (hook : option (jsstring -> jsstring -> bool))
    : PipelineOptions :=
  {| opt_tts := opt_tts demoOptions;
     opt_instructions := opt_instructions demoOptions;
     opt_respondMode := Some addressed;
     opt_agentName := Some (str "Tutor");
     opt_nameVariants := None;
     opt_beforeRespond := hook;
     opt_memory := false;
     opt_maxContextTokens := None |}.

End PipelineTestInputs.

(** ** Notions of the further properties *)

(** A chunk as rule 1 of the splitter emits it: long enough, and ended
    by a sentence terminator. *)
Definition full_sentence (chunk : jsstring) : Prop :=
  SentenceSplitter.MIN_CHUNK <= length chunk /\
  exists t0, last chunk = Some t0 /\ SentenceSplitter.is_terminator t0 = true.

(** The calls a client makes on a barge-in controller. *)
Inductive BargeInCall := CallStartCycle | CallTrigger | CallReset.

Definition bargeInCall {W} (bw : BargeIn.t W * W) (c : BargeInCall)
    : BargeIn.t W * W :=
  match c with
  | CallStartCycle => (snd (BargeIn.startCycle (fst bw)), snd bw)
  | CallTrigger => BargeIn.trigger (fst bw) (snd bw)
  | CallReset => (BargeIn.reset (fst bw), snd bw)
  end.

Definition bargeInCalls {W} (cs : list BargeInCall) (bw : BargeIn.t W * W)
    : BargeIn.t W * W :=
  fold_left bargeInCall cs bw.

(** The controller's signal, while it holds one, is in the store and
    has not been aborted. *)
Definition controller_live {W} (b : BargeIn.t W) : Prop :=
  match BargeIn.abortController b with
  | Some sig =>
      sig < length (BargeIn.signals b) /\ BargeIn.aborted b sig = false /\
      BargeIn.interrupted b = false
  | None => True
  end.




(** The first part of [handleTranscription]: the event, the listening
    state and the barge-in. *)
Definition heard (who : jsstring) (r : Pipeline.TranscriptionResult)
    (p : Pipeline.t) : Pipeline.t :=
  let p1 := Pipeline.onWorld (Pipeline.emit (Pipeline.transcription who r)) p in
  let p2 :=
    if negb (Pipeline.isFinal r) && truthy (trim (Pipeline.tr_text r))
    then Pipeline.onWorld (Pipeline.setAgentState Pipeline.listening) p1
    else p1 in
  if AudioOutput.playing (Pipeline.audioOutput (Pipeline.world p2))
     && (0 <? length (trim (Pipeline.tr_text r)))
  then Pipeline.triggerBargeIn p2 else p2.

(** Reading the [agentState] events of a log from the state [state]:
    [None] if one of them announces the state the agent is already
    in, otherwise the state after the last of them. *)
Fixpoint announced (state : Pipeline.AgentState) (evs : list Pipeline.Event)
    : option Pipeline.AgentState :=
  match evs with
  | [] => Some state
  | Pipeline.agentState s :: rest =>
      if Pipeline.AgentState_eqb state s then None else announced s rest
  | _ :: rest => announced state rest
  end.

Definition is_agentState (e : Pipeline.Event) : bool :=
  match e with Pipeline.agentState _ => true | _ => false end.

(** The log of events tells the agent state: every [agentState] event
    is a change of state, and the last one is the current state. *)
Definition state_announced (w : Pipeline.World) : Prop :=
  announced Pipeline.idle (Pipeline.emitted w) = Some (Pipeline._agentState w).

(** The log tells the state, and the barge-in callback is still the
    one the constructor installed. *)
Definition logged (p : Pipeline.t) : Prop :=
  state_announced (Pipeline.world p) /\
  BargeIn._onInterrupt (Pipeline.bargeIn p) = Some Pipeline.onInterrupt.

(** The ticks of a stream that yields the tokens [toks]. *)
Definition tokenTicks (toks : list jsstring) : list Pipeline.Tick :=
  List.map (fun tok => Pipeline.LLMNext (NextYield (tokenChunk tok))) toks.

(** A cycle whose producer is reading tokens while its consumer has
    nothing to play. *)
Definition streaming (c : Pipeline.Cycle) (full : jsstring) : Prop :=
  Pipeline.fullResponse c = full /\ Pipeline.consumer c = Pipeline.CWaiting /\
  Pipeline.sentenceQueue c = [] /\ Pipeline.segBuf c = [] /\
  Pipeline.producerDone c = false.

(** What settles while [say] plays its text: the audio arrives and
    ends when there is a TTS plugin, then the drain delay elapses. *)
Definition sayTicks (cfg : Pipeline.Config) (text : jsstring)
    : list Pipeline.Tick :=
  Pipeline.Say text
  :: match Pipeline.tts cfg with
     | Some _ => [Pipeline.TtsFirstAudio; Pipeline.TtsEnd None]
     | None => []
     end
  ++ [Pipeline.DrainElapsed].

(** [say] up to the call of [synthesizeAndPlay]. *)
Definition sayPrologue (p : Pipeline.t) : Pipeline.t :=
  Pipeline.onWorld (Pipeline.setAgentState Pipeline.thinking)
    (Pipeline.onAudio AudioOutput.beginResponse
       (Pipeline.set_bargeIn (snd (BargeIn.startCycle (Pipeline.bargeIn p)))
          (Pipeline.set_processing true p))).

(** A pipeline without a TTS plugin. *)
Definition silentOptions : Pipeline.PipelineOptions :=
  {| Pipeline.opt_tts := None;
     Pipeline.opt_instructions := Pipeline.opt_instructions demoOptions;
     Pipeline.opt_respondMode := None;
     Pipeline.opt_agentName := None;
     Pipeline.opt_nameVariants := None;
     Pipeline.opt_beforeRespond := None;
     Pipeline.opt_memory := false;
     Pipeline.opt_maxContextTokens := None |}.

(** The first sentence of an answer is being played. *)
Definition playingDemo : Pipeline.t :=
  Pipeline.run Pipeline.asciiLower demo
    [finalTranscript "user1" "Hello there";
     Pipeline.LLMNext
       (NextYield
          (tokenChunk
             (str "This is a test response that is long enough. And"))) ].

(** What happens to a turn detector. *)
Inductive DetectorCall :=
| Heard (now : Z) (text : jsstring) (isFinal : bool)
| ForceTurnEnd
| ResetDetector
| Elapse (now : Z).

Definition detectorCall {W} (dw : TurnDetector.t W * W) (c : DetectorCall)
    : TurnDetector.t W * W :=
  match c with
  | Heard now text isFinal =>
      (snd (TurnDetector.handleTranscription now text isFinal (fst dw)), snd dw)
  | ForceTurnEnd => TurnDetector.forceTurnEnd (fst dw) (snd dw)
  | ResetDetector => (TurnDetector.reset (fst dw), snd dw)
  | Elapse now => TurnDetector.elapse now (fst dw) (snd dw)
  end.

Definition detectorCalls {W} (cs : list DetectorCall)
    (dw : TurnDetector.t W * W) : TurnDetector.t W * W :=
  fold_left detectorCall cs dw.

(** No timer is pending but, at most, the one the detector holds. *)
Definition one_timer {W} (d : TurnDetector.t W) : Prop :=
  forall i deadline,
    TurnDetector.timers d !! i = Some (Some deadline) ->
    TurnDetector.silenceTimer d = Some i.

(** A detector whose callback counts its calls. *)
Definition detector (timeout : option Z) : TurnDetector.t nat :=
  TurnDetector.set_onTurnEnd (Some S)
    (TurnDetector.create {| TurnDetector.opt_silenceTimeoutMs := timeout |}).

(** What happens to a room memory. *)
Inductive MemoryCall {Embedding : Type} :=
| StartSession (uuid : jsstring)
| StoreTurn (who words : jsstring) (agent : bool)
| FlushTimer
| EmbedSettled (model : RoomMemory.Model Embedding).

Arguments MemoryCall Embedding : clear implicits.

Definition memoryCall {Embedding} (m : RoomMemory.t Embedding)
    (c : MemoryCall Embedding) : RoomMemory.t Embedding :=
  match c with
  | StartSession uuid => RoomMemory.startSession uuid m
  | StoreTurn who words agent => RoomMemory.storeTurn who words agent m
  | FlushTimer => RoomMemory.flushPending m
  | EmbedSettled model => RoomMemory.flushSettled model m
  end.

Definition memoryCalls {Embedding} (cs : list (MemoryCall Embedding))
    (m : RoomMemory.t Embedding) : RoomMemory.t Embedding :=
  fold_left memoryCall cs m.

Definition said (words : string) : MemoryCall nat :=
  StoreTurn (str "user1") (str words) false.






(** * Properties *)

(** ** Strings and patterns *)

Section DropWhile.

Context {A : Type} (p : A -> bool).

Lemma length_drop_while (l : list A) : length (drop_while p l) <= length l.
Proof.
  induction l as [|x l IH]; simpl; [lia|].
  destruct (p x); simpl; lia.
Qed.

Lemma drop_while_all (l l' : list A) :
  forallb p l = true -> drop_while p (l ++ l') = drop_while p l'.
Proof.
  induction l as [|x l IH]; simpl; [reflexivity|].
  intros H. apply andb_true_iff in H as [Hx Hl]. rewrite Hx. auto.
Qed.


Lemma drop_while_stop (l l' : list A) (x : A) :
  p x = false -> drop_while p (l ++ x :: l') = drop_while p (l ++ [x]) ++ l'.
Proof.
  intros Hx. induction l as [|y l IH]; simpl.
  - now rewrite Hx.
  - destruct (p y); [exact IH | simpl; now rewrite <- app_assoc].
Qed.

Lemma filter_drop_while (l : list A) :
  List.filter (fun x => negb (p x)) (drop_while p l)
  = List.filter (fun x => negb (p x)) l.
Proof.
  induction l as [|x l IH]; simpl; [reflexivity|].
  destruct (p x) eqn:E; simpl; [exact IH | now rewrite E].
Qed.

End DropWhile.

Lemma length_trim (s : jsstring) : length (trim s) <= length s.
Proof.
  unfold trim, trimEnd, trimStart. rewrite length_rev.
  etransitivity; [apply length_drop_while|].
  rewrite length_rev. apply length_drop_while.
Qed.

Lemma filter_rev {A} (f : A -> bool) (l : list A) :
  List.filter f (rev l) = rev (List.filter f l).
Proof.
  induction l as [|x l IH]; simpl; [reflexivity|].
  rewrite List.filter_app, IH. simpl.
  destruct (f x); simpl; [reflexivity | now rewrite app_nil_r].
Qed.

Lemma nonspace_trim (s : jsstring) : nonspace (trim s) = nonspace s.
Proof.
  unfold nonspace, trim, trimEnd, trimStart.
  rewrite filter_rev, filter_drop_while, filter_rev, rev_involutive.
  apply filter_drop_while.
Qed.

Lemma nonspace_app (a b : jsstring) : nonspace (a ++ b) = nonspace a ++ nonspace b.
Proof. apply List.filter_app. Qed.

Lemma nonspace_concat_trim (pieces : list jsstring) :
  nonspace (concat (List.map trim pieces)) = nonspace (concat pieces).
Proof.
  induction pieces as [|x l IH]; simpl; [reflexivity|].
  now rewrite !nonspace_app, nonspace_trim, IH.
Qed.

(** White space after the last visible character does not survive
    [trim]. *)
Lemma trim_trailing_space (s ws : jsstring) (x : N) :
  is_space x = false -> forallb is_space ws = true ->
  trim (s ++ x :: ws) = trim (s ++ [x]).
Proof.
  intros Hx Hws. unfold trim, trimStart, trimEnd.
  rewrite (drop_while_stop is_space s ws x Hx).
  rewrite rev_app_distr, drop_while_all; [reflexivity|].
  rewrite forallb_forall in *. intros c Hc. apply Hws.
  now apply in_rev.
Qed.

Lemma startsWith_spec (sub s : jsstring) :
  startsWith sub s = true <-> exists post, s = sub ++ post.
Proof.
  revert s. induction sub as [|a sub IH]; intros s; simpl.
  - split; [intros _; now exists s | reflexivity].
  - destruct s as [|b s].
    + split; [discriminate | intros [post H]; discriminate].
    + rewrite andb_true_iff, N.eqb_eq, IH. split.
      * intros [-> [post ->]]. now exists post.
      * intros [post H]. injection H as -> ->. split; [reflexivity | now exists post].
Qed.

(** [includes] decides the occurrence of a substring. *)
Lemma includes_spec (s sub : jsstring) :
  includes s sub = true <-> substring sub s.
Proof.
  unfold substring. induction s as [|c s IH]; simpl.
  - rewrite orb_false_r, startsWith_spec. split.
    + intros [post H]. now exists [], post.
    + intros [pre [post H]]. destruct pre; [now exists post|discriminate].
  - rewrite orb_true_iff, startsWith_spec, IH. split.
    + intros [[post H] | [pre [post H]]].
      * now exists [], post.
      * exists (c :: pre), post. simpl. now rewrite H.
    + intros [pre [post H]]. destruct pre as [|c' pre].
      * left. now exists post.
      * right. injection H as _ H. now exists pre, post.
Qed.

(** *** The patterns in closed form *)

Lemma match_many_cons (p : N -> bool) (re : regex) (c : N) (s : jsstring) :
  match_here (Many p :: re) (c :: s) =
  if p c then
    match match_here (Many p :: re) s with
    | Some n => Some (S n)
    | None => match_here re (c :: s)
    end
  else match_here re (c :: s).
Proof. reflexivity. Qed.

(** A match at the very start is the leftmost one. *)
Lemma search_at_start (re : regex) (s : jsstring) (n : nat) :
  match_here re s = Some n -> search re s = Some (0, n).
Proof. intros H. unfold search. destruct s; simpl; now rewrite H. Qed.

(** A trailing [\s*] takes the whole run of white space. *)
Lemma match_spaces (s : jsstring) :
  match_here [Many is_space] s = Some (length (take_while is_space s)).
Proof.
  induction s as [|c s IH]; [reflexivity|].
  rewrite match_many_cons, IH. simpl. now destruct (is_space c).
Qed.

(** The sentence pattern, matched at the start of a text whose first
    terminator is [t]: it takes everything up to [t], [t] itself and the
    white space that follows. *)
Lemma match_sentence (pre rest : jsstring) (t : N) :
  forallb (fun c => negb (SentenceSplitter.is_terminator c)) pre = true ->
  SentenceSplitter.is_terminator t = true ->
  match_here SentenceSplitter.sentenceRe (pre ++ t :: rest)
  = Some (length pre + 1 + length (take_while is_space rest)).
Proof.
  intros Hpre Ht. unfold SentenceSplitter.sentenceRe.
  induction pre as [|c pre IH]; simpl app.
  - rewrite match_many_cons, Ht. simpl negb. cbv iota.
    change (match_here [One SentenceSplitter.is_terminator; Many is_space] (t :: rest))
      with (if SentenceSplitter.is_terminator t
            then S <$> match_here [Many is_space] rest else None).
    rewrite Ht, match_spaces. reflexivity.
  - simpl in Hpre. apply andb_true_iff in Hpre as [Hc Hpre].
    rewrite match_many_cons, Hc, (IH Hpre). reflexivity.
Qed.

(** ** SentenceSplitter *)

Section SplitterFacts.

Import SentenceSplitter.

Lemma sentenceRule_cut (b chunk rest : jsstring) :
  sentenceRule b = Some (chunk, rest) ->
  exists n, cut_at n b chunk rest /\ MIN_CHUNK <= length b.
Proof.
  unfold sentenceRule. destruct (search sentenceRe b) as [[index len]|]; [|discriminate].
  cbv zeta. destruct (MIN_CHUNK <=? _) eqn:E; [|discriminate].
  intros H. injection H as <- <-. apply Nat.leb_le in E.
  pose proof (length_trim (take (index + len) b)) as Ht.
  rewrite length_take in Ht.
  exists (index + len). unfold cut_at. repeat split; lia.
Qed.

Lemma clauseRule_cut (b chunk rest : jsstring) :
  clauseRule b = Some (chunk, rest) -> exists n, cut_at n b chunk rest.
Proof.
  unfold clauseRule. destruct (search clauseRe b) as [[index len]|]; [|discriminate].
  destruct (MIN_CHUNK <=? index) eqn:E; [|discriminate].
  cbv zeta. intros H. injection H as <- <-. apply Nat.leb_le in E.
  exists (index + len). unfold cut_at. repeat split; lia.
Qed.

Lemma wordRule_cut (b chunk rest : jsstring) :
  wordRule b = Some (chunk, rest) -> exists n, cut_at n b chunk rest.
Proof.
  unfold wordRule. destruct (lastIndexOf _ _ b) as [spaceIdx|]; [|discriminate].
  destruct (MIN_CHUNK <=? spaceIdx) eqn:E; [|discriminate].
  intros H. injection H as <- <-. apply Nat.leb_le in E.
  exists spaceIdx. unfold cut_at. repeat split; lia.
Qed.

(** A pass that continues takes a piece off the front of the buffer,
    emits it trimmed, and leaves a shorter buffer. *)
Lemma extractStep_piece (b chunk rest : jsstring) :
  extractStep b = Some (chunk, rest) ->
  exists piece, b = piece ++ rest /\ chunk = trim piece /\ length rest < length b.
Proof.
  unfold extractStep. intros H.
  assert (exists n, cut_at n b chunk rest /\ MIN_CHUNK <= length b) as (n & (Hn & -> & ->) & Hb).
  { destruct (sentenceRule b) as [[c r]|] eqn:E1.
    - injection H as -> ->. now apply sentenceRule_cut.
    - destruct (MAX_CHUNK <=? length b) eqn:E; [|discriminate].
      apply Nat.leb_le in E. unfold MAX_CHUNK in E.
      destruct (clauseRule b) as [[c r]|] eqn:E2.
      + injection H as -> ->. apply clauseRule_cut in E2 as [n Hn].
        exists n. split; [exact Hn | unfold MIN_CHUNK; lia].
      + apply wordRule_cut in H as [n Hn].
        exists n. split; [exact Hn | unfold MIN_CHUNK; lia]. }
  exists (take n b). split; [now rewrite take_drop|]. split; [reflexivity|].
  rewrite length_drop. unfold MIN_CHUNK in *. lia.
Qed.

Lemma extractLoop_pieces (fuel : nat) (b : jsstring) (acc chunks : list jsstring)
    (rest : jsstring) :
  extractLoop fuel b acc = (chunks, rest) ->
  exists pieces, chunks = acc ++ List.map trim pieces /\ b = concat pieces ++ rest.
Proof.
  revert b acc. induction fuel as [|fuel IH]; intros b acc; simpl.
  - intros H. injection H as <- <-. exists []. simpl. now rewrite app_nil_r.
  - destruct (extractStep b) as [[chunk r]|] eqn:E.
    + intros H. apply IH in H as (pieces & -> & Hr).
      apply extractStep_piece in E as (piece & -> & -> & _).
      exists (piece :: pieces). simpl. rewrite <- !app_assoc. simpl.
      split; [reflexivity | now rewrite Hr].
    + intros H. injection H as <- <-. exists []. simpl. now rewrite app_nil_r.
Qed.

(** The loop never stops for lack of fuel: it ends in a state where no
    rule applies, which is the [break] of the source. *)
Lemma extractLoop_breaks (fuel : nat) (b : jsstring) (acc : list jsstring) :
  length b <= fuel -> extractStep (snd (extractLoop fuel b acc)) = None.
Proof.
  revert b acc. induction fuel as [|fuel IH]; intros b acc Hb; simpl.
  - destruct b; [reflexivity | simpl in Hb; lia].
  - destruct (extractStep b) as [[chunk r]|] eqn:E; [|exact E].
    apply IH. apply extractStep_piece in E as (_ & _ & _ & Hlt). lia.
Qed.

Lemma extractChunks_breaks (s : t) :
  extractStep (buffer (snd (extractChunks s))) = None.
Proof.
  unfold extractChunks.
  pose proof (extractLoop_breaks (length (buffer s)) (buffer s) [] (Nat.le_refl _)) as H.
  destruct (extractLoop _ _ _) as [chunks rest]. exact H.
Qed.



Lemma push_pieces (s s' : t) (token : jsstring) (chunks : list jsstring) :
  push s token = (chunks, s') ->
  exists pieces,
    chunks = List.map trim pieces /\
    buffer s ++ token = concat pieces ++ buffer s'.
Proof.
  unfold push, extractChunks. simpl buffer.
  destruct (extractLoop _ _ _) as [cs rest] eqn:E.
  intros H. injection H as <- <-.
  apply extractLoop_pieces in E as (pieces & -> & Hb).
  now exists pieces.
Qed.

Lemma pushAll_pieces (fragments : list jsstring) (s s' : t)
    (chunks : list jsstring) :
  pushAll s fragments = (chunks, s') ->
  exists pieces,
    chunks = List.map trim pieces /\
    buffer s ++ concat fragments = concat pieces ++ buffer s'.
Proof.
  revert s chunks. induction fragments as [|f fs IH]; intros s chunks; simpl.
  - intros H. injection H as <- <-. exists []. simpl. now rewrite app_nil_r.
  - destruct (push s f) as [cs s1] eqn:E1.
    destruct (pushAll s1 fs) as [more s2] eqn:E2.
    intros H. injection H as <- <-.
    apply push_pieces in E1 as (ps1 & -> & H1).
    apply IH in E2 as (ps2 & -> & H2).
    exists (ps1 ++ ps2). rewrite List.map_app, concat_app. split; [reflexivity|].
    rewrite app_assoc, H1, <- !app_assoc. now rewrite H2.
Qed.

End SplitterFacts.

(** C3, as the specification states it, read on the splitter's own
    test input: the space after the full stop is not given back. *)
Lemma splitter_drops_whitespace :
  SentenceSplitter.output_text [str "This is a test sentence. "]
  <> concat [str "This is a test sentence. "].
Proof. vm_compute. discriminate. Qed.

(** C3 (amended).  For every sequence of fragments pushed into a fresh
    splitter, the pushed text splits into consecutive pieces and a
    remainder such that the chunks returned by the pushes are exactly
    the trimmed pieces, in order, and the final flush gives the trimmed
    remainder ([null] when nothing but white space is left).  So the
    characters that are not white space come out exactly once and in
    order; what is lost is white space at the ends of the pieces. *)
Theorem splitter_preserves_text_up_to_trimming (fragments : list jsstring) :
  exists (pieces : list jsstring) (remainder : jsstring),
    concat pieces ++ remainder = concat fragments /\
    SentenceSplitter.session fragments
    = (List.map trim pieces,
       if truthy (trim remainder) then Some (trim remainder) else None) /\
    nonspace (SentenceSplitter.output_text fragments)
    = nonspace (concat fragments).
Proof.
  unfold SentenceSplitter.output_text, SentenceSplitter.session.
  destruct (SentenceSplitter.pushAll SentenceSplitter.create fragments)
    as [chunks s] eqn:E.
  apply pushAll_pieces in E as (pieces & -> & H). simpl in H.
  exists pieces, (SentenceSplitter.buffer s).
  assert (Hflush : fst (SentenceSplitter.flush s)
                   = if truthy (trim (SentenceSplitter.buffer s))
                     then Some (trim (SentenceSplitter.buffer s)) else None).
  { unfold SentenceSplitter.flush. simpl.
    now destruct (trim (SentenceSplitter.buffer s)). }
  split; [now rewrite H|]. split; [now rewrite Hflush|].
  rewrite Hflush, H, !nonspace_app, nonspace_concat_trim. f_equal.
  rewrite <- (nonspace_trim (SentenceSplitter.buffer s)).
  now destruct (trim (SentenceSplitter.buffer s)).
Qed.




(** ** BargeIn *)

Lemma trigger_interrupted {W : Type} (b : BargeIn.t W) (w : W) :
  BargeIn._interrupted b = true -> BargeIn.trigger b w = (b, w).
Proof. intros H. unfold BargeIn.trigger. now rewrite H. Qed.

Lemma triggerTimes_interrupted {W : Type} (n : nat) (b : BargeIn.t W) (w : W) :
  BargeIn._interrupted b = true -> triggerTimes n b w = (b, w).
Proof.
  intros H. induction n as [|n IH]; [reflexivity|].
  simpl. now rewrite trigger_interrupted.
Qed.


(** C9.  With a callback registered, two calls of [trigger] in one
    cycle call it exactly once: the first call runs it (and aborts the
    cycle's signal), the second changes nothing, and neither does any
    number of further calls.  A [startCycle] after that returns a
    signal that is not aborted and is not the signal of the cycle
    before, which stays aborted. *)
Theorem trigger_twice_calls_back_once {W : Type}
    (b0 : BargeIn.t (nat * W)) (cb : W -> W) (calls : nat) (w : W) :
  let b := BargeIn.set_onInterrupt (Some (counting cb)) b0 in
  let '(signal1, b1) := BargeIn.startCycle b in
  let '(b2, w2) := BargeIn.trigger b1 (calls, w) in
  let '(b3, w3) := BargeIn.trigger b2 w2 in
  let '(signal2, b4) := BargeIn.startCycle b3 in
  w2 = (S calls, cb w) /\ w3 = w2 /\ b3 = b2 /\
  (forall n, triggerTimes (S n) b1 (calls, w) = (b2, w2)) /\
  BargeIn.aborted b1 signal1 = false /\
  BargeIn.aborted b2 signal1 = true /\
  signal2 <> signal1 /\
  BargeIn.aborted b4 signal2 = false /\
  BargeIn.aborted b4 signal1 = true.
Proof.
  unfold BargeIn.startCycle, BargeIn.trigger, BargeIn.aborted; simpl.
  set (sigs := BargeIn.signals b0).
  assert (H1 : (sigs ++ [false]) !! length sigs = Some false).
  { rewrite lookup_app_r by lia. now rewrite Nat.sub_diag. }
  assert (H2 : (<[length sigs := true]> (sigs ++ [false])) !! length sigs = Some true).
  { apply list_lookup_insert_eq. rewrite length_app. simpl. lia. }
  repeat split.
  - intros n. now apply triggerTimes_interrupted.
  - now rewrite H1.
  - now rewrite H2.
  - rewrite length_insert, length_app. simpl. lia.
  - rewrite lookup_app_r by lia. now rewrite Nat.sub_diag.
  - rewrite lookup_app_l by (rewrite length_insert, length_app; simpl; lia).
    now rewrite H2.
Qed.

(** ** ContextManager *)

Lemma ceilDiv4_least (n : nat) (k : Z) :
  (ceilDiv4 n <= k <-> Z.of_nat n <= 4 * k)%Z.
Proof.
  unfold ceilDiv4.
  pose proof (Nat.div_mod_eq (n + 3) 4) as H.
  pose proof (Nat.mod_upper_bound (n + 3) 4) as H'.
  lia.
Qed.

Lemma estimateTokens_ceil (text : jsstring) :
  ContextManager.estimateTokens text = ceilDiv4 (length text).
Proof.
  unfold ContextManager.estimateTokens.
  set (e := (- (- Z.of_nat (length text) / 4))%Z).
  pose proof (Z.div_mod (- Z.of_nat (length text)) 4) as H.
  pose proof (Z.mod_pos_bound (- Z.of_nat (length text)) 4) as H'.
  assert (H1 : (ceilDiv4 (length text) <= e)%Z) by (apply ceilDiv4_least; lia).
  assert (H2 : (~ ceilDiv4 (length text) <= e - 1)%Z)
    by (rewrite ceilDiv4_least; lia).
  pose proof (proj2 (ceilDiv4_least (length text) (ceilDiv4 (length text)))).
  assert (H3 : (Z.of_nat (length text) <= 4 * ceilDiv4 (length text))%Z)
    by (apply ceilDiv4_least; lia).
  lia.
Qed.

Lemma reduce_tokens (ts : list ContextManager.Turn) (start : Z) :
  fold_left
    (fun acc t0 =>
       (acc + ContextManager.estimateTokens (ContextManager.text t0) + 10)%Z)
    ts start
  = (start
     + sumZ (List.map
               (fun t0 => ceilDiv4 (length (ContextManager.text t0)) + 10)
               ts))%Z.
Proof.
  revert start. induction ts as [|t0 ts IH]; intros start; simpl; [lia|].
  rewrite IH, estimateTokens_ceil. lia.
Qed.

(** C8.  [shouldSummarize] is true exactly when the ceiling of a
    quarter of the length of the instructions, plus, for every stored
    turn, the ceiling of a quarter of the length of its text and 10,
    is strictly more than [maxContextTokens]; the ceiling is the least
    integer not below the quotient, and the limit is 5000 when the
    options give none. *)
Theorem shouldSummarize_threshold (c : ContextManager.t) :
  (ContextManager.shouldSummarize c = true <->
   (ContextManager.maxContextTokens c
    < ceilDiv4 (length (ContextManager.instructions c))
      + sumZ (List.map
                (fun t0 => ceilDiv4 (length (ContextManager.text t0)) + 10)
                (ContextManager.turns c)))%Z)
  /\ (forall (n : nat) (k : Z), ceilDiv4 n <= k <-> Z.of_nat n <= 4 * k)%Z
  /\ (forall (i : jsstring) (k : option Z),
        ContextManager.maxContextTokens
          (ContextManager.create
             {| ContextManager.opt_instructions := i;
                ContextManager.opt_maxContextTokens := None;
                ContextManager.opt_recentTurnsToKeep := k |}) = 5000%Z).
Proof.
  split; [|split; [apply ceilDiv4_least | reflexivity]].
  unfold ContextManager.shouldSummarize.
  rewrite reduce_tokens, estimateTokens_ceil. apply Z.ltb_lt.
Qed.

(** *** Slices *)

Lemma sliceFrom_last {A} (l : list A) (k : Z) :
  (1 <= k <= Z.of_nat (length l))%Z ->
  ContextManager.sliceFrom l (- k) = drop (length l - Z.to_nat k) l.
Proof.
  intros Hk. unfold ContextManager.sliceFrom, ContextManager.slice,
    ContextManager.relativeIndex.
  replace (- k <? 0)%Z with true by (symmetry; apply Z.ltb_lt; lia).
  replace (Z.of_nat (length l) <? 0)%Z with false
    by (symmetry; apply Z.ltb_ge; lia).
  rewrite Z.min_id, Z.max_l by lia.
  replace (Z.to_nat (Z.of_nat (length l) + - k)) with (length l - Z.to_nat k) by lia.
  apply take_ge. rewrite length_drop. lia.
Qed.

Lemma sliceFrom_zero {A} (l : list A) : ContextManager.sliceFrom l 0 = l.
Proof.
  unfold ContextManager.sliceFrom, ContextManager.slice,
    ContextManager.relativeIndex.
  replace (Z.of_nat (length l) <? 0)%Z with false
    by (symmetry; apply Z.ltb_ge; lia).
  simpl. rewrite Z.min_id, Z.min_l by lia. simpl.
  rewrite Z.sub_0_r, Nat2Z.id. apply firstn_all.
Qed.

(** *** summarize *)

Lemma summarize_noop (llm : LLMPlugin) (c : ContextManager.t) :
  (Z.of_nat (length (ContextManager.turns c))
   <= ContextManager.recentTurnsToKeep c)%Z ->
  ContextManager.summarize llm c = (c, None).
Proof.
  intros H. unfold ContextManager.summarize, ContextManager.nothingToSummarize.
  now replace (_ <=? _)%Z with true by (symmetry; apply Z.leb_le; lia).
Qed.

(** The message list by its parts. *)
Lemma buildMessages_parts (memoryContext : option jsstring) (c : ContextManager.t) :
  ContextManager.buildMessages memoryContext c
  = ([{| role := system; content := ContextManager.instructions c |}]
     ++ match ContextManager.present memoryContext with
        | Some m => [ContextManager.memoryMessage m]
        | None => []
        end
     ++ match ContextManager.present (ContextManager.summary c) with
        | Some s => [ContextManager.summaryMessage s]
        | None => []
        end)
    ++ List.map ContextManager.turnMessage
         match ContextManager.present (ContextManager.summary c) with
         | Some _ =>
             ContextManager.sliceFrom (ContextManager.turns c)
               (- ContextManager.recentTurnsToKeep c)
         | None => ContextManager.turns c
         end.
Proof.
  unfold ContextManager.buildMessages.
  destruct (ContextManager.present memoryContext),
    (ContextManager.present (ContextManager.summary c)); reflexivity.
Qed.

(** What [summarize] does when at least one turn is to be kept: the
    last [recentTurnsToKeep] turns stay, the streamed text is joined to
    the summary, and [buildMessages] then ends with a system message
    containing that text followed by the turns that were kept. *)
Lemma summarize_keeps_recent (llm : LLMPlugin) (c : ContextManager.t) :
  let k := ContextManager.recentTurnsToKeep c in
  let stream := llm (ContextManager.summaryPrompt c) in
  let streamed := fold_left ContextManager.appendToken (chunks stream) [] in
  (1 <= k < Z.of_nat (length (ContextManager.turns c)))%Z ->
  failure stream = None ->
  let c' := fst (ContextManager.summarize llm c) in
  snd (ContextManager.summarize llm c) = None /\
  ContextManager.turns c'
  = drop (length (ContextManager.turns c) - Z.to_nat k) (ContextManager.turns c) /\
  length (ContextManager.turns c') = Z.to_nat k /\
  ContextManager.summary c'
  = Some match ContextManager.present (ContextManager.summary c) with
         | Some old =>
             old ++ ContextManager.newline ++ ContextManager.newline ++ streamed
         | None => streamed
         end /\
  forall memoryContext, exists before m,
    ContextManager.buildMessages memoryContext c'
    = before ++ m :: List.map ContextManager.turnMessage (ContextManager.turns c')
    /\ role m = system /\ substring streamed (content m).
Proof.
  intros k stream streamed Hk Hok c'.
  assert (E : ContextManager.summarize llm c
              = (ContextManager.set_turns
                   (ContextManager.sliceFrom (ContextManager.turns c) (- k))
                   (ContextManager.set_summary
                      (Some match ContextManager.present (ContextManager.summary c) with
                            | Some old =>
                                old ++ ContextManager.newline
                                ++ ContextManager.newline ++ streamed
                            | None => streamed
                            end) c), None)).
  { unfold ContextManager.summarize, ContextManager.nothingToSummarize, forAwait.
    fold k stream. rewrite Hok.
    now replace (_ <=? k)%Z with false by (symmetry; apply Z.leb_gt; lia). }
  subst c'. rewrite E. simpl fst. simpl snd.
  assert (Hlast : ContextManager.sliceFrom (ContextManager.turns c) (- k)
                  = drop (length (ContextManager.turns c) - Z.to_nat k)
                      (ContextManager.turns c))
    by (apply sliceFrom_last; lia).
  assert (Hlen : length (ContextManager.sliceFrom (ContextManager.turns c) (- k))
                 = Z.to_nat k)
    by (rewrite Hlast, length_drop; lia).
  split; [reflexivity|]. split; [exact Hlast|]. split; [exact Hlen|].
  split; [reflexivity|].
  intros memoryContext. rewrite buildMessages_parts.
  cbn [ContextManager.summary ContextManager.turns ContextManager.instructions
       ContextManager.recentTurnsToKeep ContextManager.set_turns
       ContextManager.set_summary].
  fold k.
  set (s' := match ContextManager.present (ContextManager.summary c) with
             | Some old => _ | None => _ end).
  set (kept := ContextManager.sliceFrom (ContextManager.turns c) (- k)) in *.
  change (ContextManager.present (Some s'))
    with (if truthy s' then Some s' else None).
  destruct (truthy s') eqn:Es'.
  - replace (ContextManager.sliceFrom kept (- k)) with kept
      by (rewrite sliceFrom_last by lia;
          now replace (length kept - Z.to_nat k) with 0 by lia).
    exists ([{| role := system; content := ContextManager.instructions c |}]
            ++ match ContextManager.present memoryContext with
               | Some m => [ContextManager.memoryMessage m]
               | None => []
               end), (ContextManager.summaryMessage s').
    split; [rewrite <- !app_assoc; reflexivity|]. split; [reflexivity|].
    unfold ContextManager.summaryMessage, content. subst s'.
    destruct (ContextManager.present (ContextManager.summary c)) as [old|].
    + exists (str "Conversation summary so far:" ++ ContextManager.newline
              ++ old ++ ContextManager.newline ++ ContextManager.newline), [].
      rewrite app_nil_r, <- !app_assoc. reflexivity.
    + exists (str "Conversation summary so far:" ++ ContextManager.newline), [].
      rewrite app_nil_r, <- !app_assoc. reflexivity.
  - assert (streamed = []) as Hs.
    { subst s'. destruct (ContextManager.present (ContextManager.summary c)) as [old|].
      - destruct old; discriminate.
      - now destruct streamed. }
    rewrite Hs.
    destruct (ContextManager.present memoryContext) as [m|].
    + exists [{| role := system; content := ContextManager.instructions c |}],
        (ContextManager.memoryMessage m).
      split; [reflexivity|]. split; [reflexivity|].
      now exists [], (content (ContextManager.memoryMessage m)).
    + exists [], {| role := system; content := ContextManager.instructions c |}.
      split; [reflexivity|]. split; [reflexivity|].
      now exists [], (ContextManager.instructions c).
Qed.

(** C5 fails on the code when [recentTurnsToKeep] is 0: [slice(-0)]
    is the whole array, so a successful [summarize] sets the summary
    and keeps every turn, where none should remain. *)
Theorem summarize_keeping_none_keeps_all
    (llm : LLMPlugin) (c : ContextManager.t) :
  ContextManager.recentTurnsToKeep c = 0%Z ->
  ContextManager.turns c <> [] ->
  failure (llm (ContextManager.summaryPrompt c)) = None ->
  let c' := fst (ContextManager.summarize llm c) in
  ContextManager.turns c' = ContextManager.turns c /\
  is_Some (ContextManager.summary c') /\
  (is_Some (ContextManager.present (ContextManager.summary c')) ->
   forall memoryContext,
     exists before,
       ContextManager.buildMessages memoryContext c'
       = before ++ List.map ContextManager.turnMessage (ContextManager.turns c)).
Proof.
  intros Hk Hne Hok c'. subst c'.
  unfold ContextManager.summarize, ContextManager.nothingToSummarize, forAwait.
  rewrite Hok, Hk.
  replace (_ <=? 0)%Z with false
    by (symmetry; apply Z.leb_gt; destruct (ContextManager.turns c);
        [contradiction | simpl; lia]).
  simpl fst. simpl Z.opp. rewrite sliceFrom_zero.
  split; [reflexivity|]. split; [eexists; reflexivity|].
  intros [s' Hs'] memoryContext. rewrite buildMessages_parts.
  cbn [ContextManager.summary ContextManager.turns ContextManager.instructions
       ContextManager.recentTurnsToKeep ContextManager.set_turns
       ContextManager.set_summary] in *.
  rewrite Hs', Hk. simpl Z.opp. rewrite sliceFrom_zero.
  eexists. reflexivity.
Qed.

Lemma summarize_keeping_none_keeps_all_witness :
  let c' := fst (ContextManager.summarize summaryLLM (tutor (Some 0%Z))) in
  length (ContextManager.turns c') = 3 /\
  ContextManager.summary c' = Some (str "Summary of the conversation so far.").
Proof.
  destruct (summarize_keeping_none_keeps_all summaryLLM (tutor (Some 0%Z)))
    as (Hturns & _ & _); [reflexivity | discriminate | reflexivity |].
  cbv zeta. rewrite Hturns. split; reflexivity.
Defined.

(** C10.  When the stream of the summarization call throws, at
    whatever point, [summarize] rejects with that error and leaves the
    turns and the summary as they were. *)
Theorem summarize_failure_changes_nothing
    (llm : LLMPlugin) (c : ContextManager.t) (e : JsError) :
  ContextManager.nothingToSummarize c = false ->
  failure (llm (ContextManager.summaryPrompt c)) = Some e ->
  ContextManager.summarize llm c = (c, Some e).
Proof.
  intros Hcall Hfail. unfold ContextManager.summarize, forAwait.
  now rewrite Hcall, Hfail.
Qed.

Lemma summarize_failure_changes_nothing_witness :
  ContextManager.summarize failingLLM (tutor (Some 1%Z))
  = (tutor (Some 1%Z), Some (plainError (str "socket hang up"))).
Proof.
  apply (summarize_failure_changes_nothing failingLLM (tutor (Some 1%Z)));
    reflexivity.
Defined.

(** ** Pipeline *)

(** C7.  In [addressed] mode [shouldRespond] is true exactly when the
    lower-cased text contains the lower-cased agent name (the option,
    or [assistant]) or one of the lower-cased variants, and the
    [beforeRespond] hook, when there is one, returns true; in [always]
    mode, the default, it is true for every text. *)
Theorem shouldRespond_spec (toLowerCase : jsstring -> jsstring)
    (options : Pipeline.PipelineOptions) (speaker text : jsstring) :
  Pipeline.shouldRespond toLowerCase
    (Pipeline.config (Pipeline.create toLowerCase options)) speaker text = true
  <->
  match default Pipeline.always (Pipeline.opt_respondMode options) with
  | Pipeline.always => True
  | Pipeline.addressed =>
      (exists name,
          In name (default (str "assistant") (Pipeline.opt_agentName options)
                   :: default [] (Pipeline.opt_nameVariants options))
          /\ substring (toLowerCase name) (toLowerCase text))
      /\ (forall hook,
             Pipeline.opt_beforeRespond options = Some hook ->
             hook speaker text = true)
  end.
Proof.
  unfold Pipeline.shouldRespond, Pipeline.create; simpl.
  destruct (default Pipeline.always (Pipeline.opt_respondMode options));
    [tauto|].
  set (agent := default (str "assistant") (Pipeline.opt_agentName options)).
  set (variants := default [] (Pipeline.opt_nameVariants options)).
  assert (Hmatch :
    includes (toLowerCase text) (toLowerCase agent)
    || existsb (fun v => includes (toLowerCase text) v)
         (List.map toLowerCase variants) = true
    <-> exists name, In name (agent :: variants)
                     /\ substring (toLowerCase name) (toLowerCase text)).
  { rewrite orb_true_iff, existsb_exists, includes_spec. split.
    - intros [H | (v & Hv & H)].
      + exists agent. split; [now left | exact H].
      + apply in_map_iff in Hv as (name & <- & Hname).
        exists name. split; [now right | now apply includes_spec].
    - intros (name & [<- | Hname] & H); [now left|].
      right. exists (toLowerCase name).
      split; [now apply in_map | now apply includes_spec]. }
  destruct (includes _ _ || existsb _ _) eqn:E; simpl.
  - destruct (Pipeline.opt_beforeRespond options) as [hook|].
    + split.
      * intros H. split; [now apply Hmatch|]. intros h Hh. now injection Hh as <-.
      * intros [_ H]. now apply H.
    + split; [|reflexivity]. intros _. split; [now apply Hmatch | discriminate].
  - split; [discriminate|]. intros [H _]. apply Hmatch in H. discriminate.
Qed.

(** *** What a step leaves alone *)

Section PipelineFacts.

Import Pipeline.


Lemma quiet_trans (p q r : t) : quiet p q -> quiet q r -> quiet p r.
Proof.
  unfold quiet. intros (? & ? & ? & ? & ? & ?) (? & ? & ? & ? & ? & ?).
  repeat split; congruence.
Qed.

Lemma quiet_onWorld (f : World -> World) (p : t) : quiet p (onWorld f p).
Proof. now repeat split. Qed.


Lemma quiet_triggerBargeIn (p : t) : quiet p (triggerBargeIn p).
Proof.
  unfold triggerBargeIn. destruct (BargeIn.trigger _ _). now repeat split.
Qed.

Lemma quiet_storeTurn (who words : jsstring) (agent : bool) (p : t) :
  quiet p (storeTurn who words agent p).
Proof. unfold storeTurn. destruct (memory _); now repeat split. Qed.


















(** *** The [finally] blocks *)











(** *** Every step, by what it does to the pending turn *)








Section StepFacts.

Variable toLowerCase : jsstring -> jsstring.









End StepFacts.

(** With no frame suspended, nothing the pipeline once awaited can
    change it any more. *)
Lemma at_rest (toLowerCase : jsstring -> jsstring) (ticks : list Tick) (p : t) :
  task p = Idle -> forallb settles ticks = true ->
  run toLowerCase p ticks = p.
Proof.
  intros Hidle. induction ticks as [|tick ticks IH]; [reflexivity|].
  simpl. intros H. apply andb_true_iff in H as [Ht Hts].
  replace (step toLowerCase p tick) with p; [now apply IH|].
  destruct tick; try discriminate; simpl; now rewrite Hidle.
Qed.

End PipelineFacts.



(** C1 fails on the code.  After the fourth tick of
    [bargeInMemoryScript] the first cycle is in flight with its signal
    aborted and one token accumulated; when its stream ends, that
    partial text is recorded as an agent turn in the context and in the
    memory collaborator and emitted as a [response], while the pending
    turn is still waiting. *)
Theorem cancelled_cycle_records_partial_response :
  let midway :=
    Pipeline.run Pipeline.asciiLower demoWithMemory (take 4 bargeInMemoryScript) in
  let after :=
    Pipeline.run Pipeline.asciiLower demoWithMemory bargeInMemoryScript in
  (exists c,
      Pipeline.task midway = Pipeline.Responding c /\
      Pipeline.producerDone c = false /\
      Pipeline.signalAborted midway (Pipeline.signal c) = true /\
      Pipeline.fullResponse c = str "Word1") /\
  Pipeline.emitted (Pipeline.world after)
  = [Pipeline.transcription (str "user1")
       {| Pipeline.tr_text := str "First question"; Pipeline.isFinal := true |};
     Pipeline.agentState Pipeline.thinking;
     Pipeline.transcription (str "user1")
       {| Pipeline.tr_text := str "Actually nevermind, new question.";
          Pipeline.isFinal := true |};
     Pipeline.agentState Pipeline.idle;
     Pipeline.response (str "Word1")] /\
  last (ContextManager.turns (Pipeline.context after))
  = Some {| ContextManager.speaker := str "assistant";
            ContextManager.text := str "Word1";
            ContextManager.isAgent := true;
            ContextManager.timestamp := 0 |} /\
  last (Pipeline.memoryStore after) = Some (str "assistant", str "Word1", true) /\
  Pipeline.pendingTurn after
  = Some (str "user1", str "Actually nevermind, new question.").
Proof.
  split; [|vm_compute; repeat split].
  eexists. vm_compute. repeat split.
Qed.

(** C2 fails on the code.  When the stream of the answer throws, or
    the audio stream of [say] does, the [error] event is emitted and
    the frame is left, but the agent state is still [thinking]; with
    nothing suspended any more, no promise that settles later can move
    it. *)
Theorem error_leaves_agent_thinking :
  let failed := Pipeline.run Pipeline.asciiLower demo llmFailureScript in
  let failedSay := Pipeline.run Pipeline.asciiLower demo sayFailureScript in
  (last (Pipeline.emitted (Pipeline.world failed))
   = Some (Pipeline.error (plainError (str "LLM request failed"))) /\
   Pipeline._processing failed = false /\ Pipeline.task failed = Pipeline.Idle /\
   Pipeline._agentState (Pipeline.world failed) = Pipeline.thinking) /\
  (last (Pipeline.emitted (Pipeline.world failedSay))
   = Some (Pipeline.error (plainError (str "TTS connection lost"))) /\
   Pipeline._processing failedSay = false /\
   Pipeline.task failedSay = Pipeline.Idle /\
   Pipeline._agentState (Pipeline.world failedSay) = Pipeline.thinking) /\
  (forall later,
      forallb settles later = true ->
      Pipeline._agentState
        (Pipeline.world (Pipeline.run Pipeline.asciiLower failed later))
      = Pipeline.thinking /\
      Pipeline._agentState
        (Pipeline.world (Pipeline.run Pipeline.asciiLower failedSay later))
      = Pipeline.thinking).
Proof.
  split; [vm_compute; repeat split|]. split; [vm_compute; repeat split|].
  intros later Hlater.
  rewrite (at_rest _ later (Pipeline.run _ demo llmFailureScript))
    by (reflexivity || exact Hlater).
  rewrite (at_rest _ later (Pipeline.run _ demo sayFailureScript))
    by (reflexivity || exact Hlater).
  split; reflexivity.
Qed.

(** * Further properties *)

(** ** Trimming *)

Section DropWhileMore.

Context {A : Type} (p : A -> bool).


Lemma drop_while_snoc (l : list A) (x : A) :
  p x = false -> drop_while p (l ++ [x]) = drop_while p l ++ [x].
Proof.
  intros Hx. induction l as [|y l IH]; simpl; [now rewrite Hx|].
  now destruct (p y).
Qed.

Lemma head_drop_while (l : list A) (x : A) :
  head (drop_while p l) = Some x -> p x = false.
Proof.
  induction l as [|y l IH]; simpl; [discriminate|].
  destruct (p y) eqn:E; [exact IH|]. simpl. congruence.
Qed.

End DropWhileMore.

Lemma last_rev_head {A} (l : list A) : last (rev l) = head l.
Proof. destruct l as [|x l]; [reflexivity|]. simpl. apply last_snoc. Qed.


Lemma trimEnd_snoc (s : jsstring) (x : N) :
  is_space x = false -> trimEnd (s ++ [x]) = s ++ [x].
Proof.
  intros Hx. unfold trimEnd. rewrite rev_app_distr. simpl. rewrite Hx.
  simpl. now rewrite rev_involutive.
Qed.


Lemma last_trim (s : jsstring) (x : N) :
  last (trim s) = Some x -> is_space x = false.
Proof.
  unfold trim, trimEnd. rewrite last_rev_head. apply head_drop_while.
Qed.

Lemma trim_snoc (s : jsstring) (x : N) :
  is_space x = false -> trim (s ++ [x]) = trimStart s ++ [x].
Proof.
  intros Hx. unfold trim, trimStart. rewrite drop_while_snoc by exact Hx.
  now apply trimEnd_snoc.
Qed.

(** ** SentenceSplitter *)

(** A text either has no terminator or splits at its first one. *)
Lemma first_terminator (b : jsstring) :
  forallb (fun c => negb (SentenceSplitter.is_terminator c)) b = true \/
  exists pre t rest,
    b = pre ++ t :: rest /\
    forallb (fun c => negb (SentenceSplitter.is_terminator c)) pre = true /\
    SentenceSplitter.is_terminator t = true.
Proof.
  induction b as [|c b IH]; [now left|].
  destruct (SentenceSplitter.is_terminator c) eqn:E.
  - right. exists [], c, b. now repeat split.
  - destruct IH as [IH|(pre & t & rest & -> & Hpre & Ht)].
    + left. simpl. now rewrite E.
    + right. exists (c :: pre), t, rest. repeat split; [|exact Ht].
      simpl. now rewrite E.
Qed.

Lemma match_sentence_none (b : jsstring) :
  forallb (fun c => negb (SentenceSplitter.is_terminator c)) b = true ->
  match_here SentenceSplitter.sentenceRe b = None.
Proof.
  unfold SentenceSplitter.sentenceRe.
  induction b as [|c b IH]; [reflexivity|].
  intros H. simpl in H. apply andb_true_iff in H as [Hc Hb].
  rewrite match_many_cons, Hc, (IH Hb). simpl.
  apply negb_true_iff in Hc. now rewrite Hc.
Qed.

Lemma search_sentence_none (b : jsstring) (i : nat) :
  forallb (fun c => negb (SentenceSplitter.is_terminator c)) b = true ->
  search_from SentenceSplitter.sentenceRe b i = None.
Proof.
  revert i. induction b as [|c b IH]; intros i H.
  - reflexivity.
  - cbn [search_from]. rewrite (match_sentence_none _ H).
    simpl in H. apply andb_true_iff in H as [_ Hb]. now apply IH.
Qed.

Section SplitterMore.

Import SentenceSplitter.

Lemma is_terminator_not_space (t : N) :
  is_terminator t = true -> is_space t = false.
Proof.
  unfold is_terminator. intros H.
  apply orb_true_iff in H as [H|H]; [apply orb_true_iff in H as [H|H]|];
    apply N.eqb_eq in H; subst; reflexivity.
Qed.

(** Rule 1 in closed form. *)
Lemma sentenceRule_spec (b chunk rest : jsstring) :
  sentenceRule b = Some (chunk, rest) ->
  exists pre t after,
    b = pre ++ t :: after /\
    forallb (fun c => negb (is_terminator c)) pre = true /\
    is_terminator t = true /\
    chunk = trimStart pre ++ [t] /\
    rest = drop_while is_space after /\
    MIN_CHUNK <= length chunk.
Proof.
  unfold sentenceRule.
  destruct (first_terminator b) as [H|(pre & t & after & -> & Hpre & Ht)].
  - unfold search. now rewrite (search_sentence_none _ 0 H).
  - rewrite (search_at_start _ _ _ (match_sentence pre after t Hpre Ht)).
    cbn [Nat.add].
    set (n := length pre + 1 + length (take_while is_space after)).
    assert (Hsplit : after = take_while is_space after ++ drop_while is_space after).
    { clear. induction after as [|c a IH]; [reflexivity|]. simpl.
      destruct (is_space c); [simpl; now f_equal|reflexivity]. }
    assert (Hws : forallb is_space (take_while is_space after) = true).
    { clear. induction after as [|c a IH]; [reflexivity|]. simpl.
      destruct (is_space c) eqn:E; [simpl; now rewrite E|reflexivity]. }
    assert (Htake : take n (pre ++ t :: after)
                    = pre ++ t :: take_while is_space after).
    { rewrite Hsplit at 1.
      replace (pre ++ t :: take_while is_space after ++ drop_while is_space after)
        with ((pre ++ t :: take_while is_space after) ++ drop_while is_space after)
        by (now rewrite <- app_assoc).
      apply take_app_length'. rewrite length_app. simpl. unfold n. lia. }
    assert (Hdrop : drop n (pre ++ t :: after) = drop_while is_space after).
    { rewrite Hsplit at 1.
      replace (pre ++ t :: take_while is_space after ++ drop_while is_space after)
        with ((pre ++ t :: take_while is_space after) ++ drop_while is_space after)
        by (now rewrite <- app_assoc).
      apply drop_app_length'. rewrite length_app. simpl. unfold n. lia. }
    rewrite Htake, Hdrop.
    rewrite (trim_trailing_space pre _ t (is_terminator_not_space t Ht) Hws).
    rewrite (trim_snoc pre t (is_terminator_not_space t Ht)).
    destruct (MIN_CHUNK <=? _) eqn:E; [|discriminate].
    intros [= <- <-]. exists pre, t, after.
    apply Nat.leb_le in E. now repeat split.
Qed.

End SplitterMore.



Section SplitterMoreFacts.

Import SentenceSplitter.

Lemma extractLoop_at_rest (fuel : nat) (b : jsstring) :
  extractStep b = None -> extractLoop fuel b [] = ([], b).
Proof. intros H. destruct fuel; simpl; [reflexivity|]. now rewrite H. Qed.

Lemma extractStep_below_max (b : jsstring) :
  length b < MAX_CHUNK -> extractStep b = sentenceRule b.
Proof.
  intros H. unfold extractStep. destruct (sentenceRule b); [reflexivity|].
  destruct (MAX_CHUNK <=? length b) eqn:E; [|reflexivity].
  apply Nat.leb_le in E. lia.
Qed.

Lemma extractLoop_sentences (fuel : nat) (b : jsstring) (acc : list jsstring) :
  length b < MAX_CHUNK -> Forall full_sentence acc ->
  Forall full_sentence (fst (extractLoop fuel b acc)).
Proof.
  revert b acc. induction fuel as [|fuel IH]; intros b acc Hb Hacc; [exact Hacc|].
  simpl. rewrite (extractStep_below_max b Hb).
  destruct (sentenceRule b) as [[chunk rest]|] eqn:E; [|exact Hacc].
  destruct (sentenceRule_spec _ _ _ E) as (pre & t0 & after & -> & _ & Ht & -> & -> & Hmin).
  apply IH.
  - pose proof (length_drop_while is_space after).
    rewrite length_app in Hb. simpl in Hb. lia.
  - apply Forall_app. split; [exact Hacc|]. constructor; [|constructor].
    split; [exact Hmin|]. exists t0. split; [apply last_snoc|exact Ht].
Qed.

End SplitterMoreFacts.

Lemma lastIndexOf_aux_found (c : N) (s : jsstring) (i from f : nat) :
  exists j, lastIndexOf_aux c s i from (Some f) = Some j /\ (f <= i -> f <= j).
Proof.
  revert i f. induction s as [|x s IH]; intros i f; simpl.
  - exists f. split; [reflexivity|lia].
  - destruct (from <? i); [exists f; split; [reflexivity|lia]|].
    destruct (x =? c)%N.
    + destruct (IH (S i) i) as (j & -> & Hj). exists j. split; [reflexivity|lia].
    + destruct (IH (S i) f) as (j & -> & Hj). exists j. split; [reflexivity|lia].
Qed.

Lemma lastIndexOf_aux_sees (c : N) (s : jsstring) (i from k : nat)
    (found : option nat) :
  s !! k = Some c -> i + k <= from ->
  exists j, lastIndexOf_aux c s i from found = Some j /\ i + k <= j.
Proof.
  revert i k found. induction s as [|x s IH]; intros i k found Hk Hle;
    [discriminate|].
  simpl. destruct (from <? i) eqn:E; [apply Nat.ltb_lt in E; lia|].
  destruct k as [|k].
  - simpl in Hk. injection Hk as ->. rewrite N.eqb_refl.
    destruct (lastIndexOf_aux_found c s (S i) from i) as (j & -> & Hj).
    exists j. split; [reflexivity|lia].
  - simpl in Hk. destruct (IH (S i) k (if (x =? c)%N then Some i else found) Hk)
      as (j & -> & Hj); [lia|].
    exists j. split; [reflexivity|lia].
Qed.

(** X1.  [push] holds nothing back: what it leaves in the buffer gives
    no chunk, so that pushing the empty string next emits nothing and
    changes nothing. *)
Theorem push_leaves_nothing_to_emit (s : SentenceSplitter.t) (token : jsstring) :
  SentenceSplitter.push (snd (SentenceSplitter.push s token)) []
  = ([], snd (SentenceSplitter.push s token)).
Proof.
  pose proof (extractChunks_breaks
                {| SentenceSplitter.buffer := SentenceSplitter.buffer s ++ token |})
    as H.
  fold (SentenceSplitter.push s token) in H.
  destruct (snd (SentenceSplitter.push s token)) as [b]. simpl in H.
  unfold SentenceSplitter.push, SentenceSplitter.extractChunks. simpl.
  rewrite app_nil_r. now rewrite (extractLoop_at_rest _ _ H).
Qed.


(** X3.  As long as the buffered text is shorter than MAX_CHUNK, every
    chunk that [push] emits is a sentence: it has at least MIN_CHUNK
    characters and its last character is a terminator. *)
Theorem push_below_max_emits_sentences (s : SentenceSplitter.t)
    (token : jsstring) :
  length (SentenceSplitter.buffer s ++ token) < SentenceSplitter.MAX_CHUNK ->
  Forall full_sentence (fst (SentenceSplitter.push s token)).
Proof.
  intros H. unfold SentenceSplitter.push, SentenceSplitter.extractChunks. simpl.
  pose proof (extractLoop_sentences
                (length (SentenceSplitter.buffer s ++ token)) _ [] H
                (List.Forall_nil _)) as HF.
  now destruct (SentenceSplitter.extractLoop _ _ _).
Qed.

Lemma push_below_max_emits_sentences_witness :
  Forall full_sentence
    (fst (SentenceSplitter.push SentenceSplitter.create
            (str "This is a test sentence. And this is another one! Then"))).
Proof.
  apply (push_below_max_emits_sentences SentenceSplitter.create
           (str "This is a test sentence. And this is another one! Then")).
  vm_compute. lia.
Defined.

(** X4.  Text without a sentence terminator is kept back while it is
    shorter than MAX_CHUNK: [push] emits nothing and the buffer is the
    old buffer followed by the token. *)
Theorem push_keeps_unterminated_text (s : SentenceSplitter.t)
    (token : jsstring) :
  forallb (fun c => negb (SentenceSplitter.is_terminator c))
    (SentenceSplitter.buffer s ++ token) = true ->
  length (SentenceSplitter.buffer s ++ token) < SentenceSplitter.MAX_CHUNK ->
  SentenceSplitter.push s token
  = ([], {| SentenceSplitter.buffer := SentenceSplitter.buffer s ++ token |}).
Proof.
  intros Hnone Hlen.
  unfold SentenceSplitter.push, SentenceSplitter.extractChunks. simpl.
  rewrite extractLoop_at_rest; [reflexivity|].
  rewrite (extractStep_below_max _ Hlen).
  unfold SentenceSplitter.sentenceRule, search.
  now rewrite (search_sentence_none _ 0 Hnone).
Qed.

Lemma push_keeps_unterminated_text_witness :
  SentenceSplitter.push {| SentenceSplitter.buffer := str "Hello, " |}
    (str "how are you")
  = ([], {| SentenceSplitter.buffer := str "Hello, how are you" |}).
Proof.
  apply (push_keeps_unterminated_text
           {| SentenceSplitter.buffer := str "Hello, " |} (str "how are you"));
    vm_compute; [reflexivity|lia].
Defined.

(** X5.  After every [push] the buffer is shorter than MAX_CHUNK, or
    it has no space at any offset from MIN_CHUNK to MAX_CHUNK at which
    the forced split could cut it. *)
Theorem push_bounds_buffer (s : SentenceSplitter.t) (token : jsstring) :
  let b := SentenceSplitter.buffer (snd (SentenceSplitter.push s token)) in
  length b < SentenceSplitter.MAX_CHUNK \/
  forall i,
    SentenceSplitter.MIN_CHUNK <= i <= SentenceSplitter.MAX_CHUNK ->
    b !! i <> Some 32%N.
Proof.
  intros b.
  pose proof (extractChunks_breaks
                {| SentenceSplitter.buffer := SentenceSplitter.buffer s ++ token |})
    as H.
  fold (SentenceSplitter.push s token) in H. fold b in H.
  destruct (Nat.lt_ge_cases (length b) SentenceSplitter.MAX_CHUNK) as [Hlt|Hge];
    [now left|].
  right. intros i Hi Hsp.
  unfold SentenceSplitter.extractStep in H.
  destruct (SentenceSplitter.sentenceRule b); [discriminate|].
  apply Nat.leb_le in Hge. rewrite Hge in H.
  destruct (SentenceSplitter.clauseRule b); [discriminate|].
  unfold SentenceSplitter.wordRule, lastIndexOf in H.
  destruct (lastIndexOf_aux_sees 32%N b 0 SentenceSplitter.MAX_CHUNK i None Hsp)
    as (j & Hj & Hij); [simpl; lia|].
  rewrite Hj in H. simpl in Hij.
  destruct (SentenceSplitter.MIN_CHUNK <=? j) eqn:E; [discriminate|].
  apply Nat.leb_gt in E. lia.
Qed.

(** ** BargeIn *)

Section BargeInFacts.

Context {W : Type}.

Lemma aborted_startCycle (b : BargeIn.t W) (sig : nat) :
  BargeIn.aborted (snd (BargeIn.startCycle b)) sig = BargeIn.aborted b sig.
Proof.
  unfold BargeIn.aborted, BargeIn.startCycle. simpl.
  destruct (Nat.lt_ge_cases sig (length (BargeIn.signals b))) as [H|H].
  - now rewrite lookup_app_l.
  - rewrite lookup_app_r by exact H. rewrite (lookup_ge_None_2 _ _ H).
    now destruct (sig - length (BargeIn.signals b)) as [|[|n]].
Qed.

Lemma aborted_trigger_keeps (b : BargeIn.t W) (w : W) (sig : nat) :
  BargeIn.aborted b sig = true ->
  BargeIn.aborted (fst (BargeIn.trigger b w)) sig = true.
Proof.
  unfold BargeIn.trigger, BargeIn.aborted.
  destruct (BargeIn._interrupted b); [easy|]. simpl.
  destruct (BargeIn.abortController b) as [cur|]; [|easy].
  intros H. destruct (decide (cur = sig)) as [->|Hne].
  - destruct (BargeIn.signals b !! sig) as [v|] eqn:E; [|discriminate].
    apply lookup_lt_Some in E. now rewrite list_lookup_insert_eq.
  - now rewrite list_lookup_insert_ne.
Qed.

Lemma aborted_bargeInCall (c : BargeInCall) (b : BargeIn.t W) (w : W) (sig : nat) :
  BargeIn.aborted b sig = true ->
  BargeIn.aborted (fst (bargeInCall (b, w) c)) sig = true.
Proof.
  destruct c; cbn [bargeInCall fst snd].
  - now rewrite aborted_startCycle.
  - apply aborted_trigger_keeps.
  - easy.
Qed.

Lemma controller_live_call (c : BargeInCall) (b : BargeIn.t W) (w : W) :
  controller_live b -> controller_live (fst (bargeInCall (b, w) c)).
Proof.
  intros H. destruct c; cbn [bargeInCall fst snd].
  - unfold controller_live, BargeIn.aborted. simpl.
    rewrite length_app. simpl. split; [lia|]. split; [|reflexivity].
    rewrite lookup_app_r by lia. now rewrite Nat.sub_diag.
  - unfold BargeIn.trigger. destruct (BargeIn._interrupted b); [exact H|].
    exact I.
  - exact I.
Qed.

Lemma controller_live_calls (cs : list BargeInCall) (b : BargeIn.t W) (w : W) :
  controller_live b -> controller_live (fst (bargeInCalls cs (b, w))).
Proof.
  revert b w. induction cs as [|c cs IH]; intros b w H; [exact H|].
  simpl. destruct (bargeInCall (b, w) c) as [b' w'] eqn:E.
  apply IH. change b' with (fst (b', w')). rewrite <- E.
  now apply controller_live_call.
Qed.

Lemma trigger_aborts_current (b : BargeIn.t W) (w : W) (sig : nat) :
  controller_live b ->
  BargeIn.aborted (fst (BargeIn.trigger b w)) sig
  = BargeIn.aborted b sig
    || bool_decide (BargeIn.abortController b = Some sig).
Proof.
  unfold controller_live, BargeIn.trigger, BargeIn.interrupted.
  destruct (BargeIn.abortController b) as [cur|] eqn:Ec.
  - intros (Hlt & Hlive & ->). unfold BargeIn.aborted. simpl.
    destruct (decide (cur = sig)) as [->|Hne].
    + rewrite list_lookup_insert_eq by exact Hlt.
      rewrite bool_decide_eq_true_2 by reflexivity. now rewrite orb_true_r.
    + rewrite list_lookup_insert_ne by exact Hne.
      rewrite bool_decide_eq_false_2 by congruence. now rewrite orb_false_r.
  - intros _. rewrite bool_decide_eq_false_2 by congruence.
    rewrite orb_false_r. now destruct (BargeIn._interrupted b).
Qed.

End BargeInFacts.

(** X6.  An aborted signal stays aborted: no later call of
    [startCycle], [trigger] or [reset] revives it. *)
Theorem abort_is_permanent {W : Type} (cs : list BargeInCall)
    (b : BargeIn.t W) (w : W) (sig : nat) :
  BargeIn.aborted b sig = true ->
  BargeIn.aborted (fst (bargeInCalls cs (b, w))) sig = true.
Proof.
  revert b w. induction cs as [|c cs IH]; intros b w H; [exact H|].
  simpl. destruct (bargeInCall (b, w) c) as [b' w'] eqn:E.
  apply IH. change b' with (fst (b', w')). rewrite <- E.
  now apply aborted_bargeInCall.
Qed.

Lemma abort_is_permanent_witness :
  let b1 := snd (BargeIn.startCycle (BargeIn.create (W := unit))) in
  let b2 := fst (BargeIn.trigger b1 tt) in
  BargeIn.aborted
    (fst (bargeInCalls [CallReset; CallStartCycle; CallTrigger; CallStartCycle]
            (b2, tt))) 0 = true.
Proof.
  apply (abort_is_permanent
           [CallReset; CallStartCycle; CallTrigger; CallStartCycle]
           (fst (BargeIn.trigger (snd (BargeIn.startCycle BargeIn.create)) tt))
           tt 0).
  reflexivity.
Defined.

(** X7.  In every state a controller reaches from its constructor,
    the signal it holds is one that has not been aborted, and
    [trigger] aborts that signal and no other: every other signal,
    of an earlier cycle or not yet created, is as it was. *)
Theorem trigger_aborts_only_the_current_signal {W : Type}
    (cb : option (W -> W)) (cs : list BargeInCall) (w0 w : W) (sig : nat) :
  let b := fst (bargeInCalls cs (BargeIn.set_onInterrupt cb BargeIn.create, w0)) in
  controller_live b /\
  BargeIn.aborted (fst (BargeIn.trigger b w)) sig
  = BargeIn.aborted b sig
    || bool_decide (BargeIn.abortController b = Some sig).
Proof.
  intros b.
  assert (H : controller_live b) by (apply controller_live_calls; exact I).
  split; [exact H|]. now apply trigger_aborts_current.
Qed.

(** ** ContextManager *)

Section ContextManagerMore.

Import ContextManager.

Lemma relativeIndex_range (len i : Z) :
  (0 <= len -> 0 <= relativeIndex len i <= len)%Z.
Proof. unfold relativeIndex. destruct (i <? 0)%Z eqn:E; lia. Qed.

Lemma slice_to {A} (l : list A) (stop : Z) :
  slice l 0 stop
  = take (Z.to_nat (relativeIndex (Z.of_nat (length l)) stop)) l.
Proof.
  unfold slice. replace (relativeIndex (Z.of_nat (length l)) 0) with 0%Z
    by (unfold relativeIndex; simpl; lia).
  now rewrite Z.sub_0_r.
Qed.

Lemma sliceFrom_drop {A} (l : list A) (start : Z) :
  sliceFrom l start
  = drop (Z.to_nat (relativeIndex (Z.of_nat (length l)) start)) l.
Proof.
  unfold sliceFrom, slice.
  pose proof (relativeIndex_range (Z.of_nat (length l)) start ltac:(lia)) as H.
  replace (relativeIndex (Z.of_nat (length l)) (Z.of_nat (length l)))
    with (Z.of_nat (length l))
    by (unfold relativeIndex; destruct (_ <? 0)%Z eqn:E; lia).
  apply take_ge. rewrite length_drop. lia.
Qed.

(** What [summarize] hands to the model and what it keeps are the two
    parts of the turns, whatever the number of turns to keep. *)
Lemma slice_partition {A} (l : list A) (k : Z) :
  slice l 0 (- k) ++ sliceFrom l (- k) = l.
Proof. rewrite slice_to, sliceFrom_drop. apply take_drop. Qed.

Lemma sliceFrom_neg {A} (l : list A) (k : Z) :
  (1 <= k)%Z -> sliceFrom l (- k) = drop (length l - Z.to_nat k) l.
Proof.
  intros Hk. rewrite sliceFrom_drop. f_equal. unfold relativeIndex.
  destruct (- k <? 0)%Z eqn:E; lia.
Qed.

Lemma estimateTokens_nonneg (s : jsstring) : (0 <= estimateTokens s)%Z.
Proof. rewrite estimateTokens_ceil. unfold ceilDiv4. lia. Qed.

Lemma shouldSummarize_snoc (c : t) (t0 : Turn) :
  shouldSummarize c = true ->
  shouldSummarize (set_turns (turns c ++ [t0]) c) = true.
Proof.
  unfold shouldSummarize. simpl. rewrite fold_left_app. simpl.
  pose proof (estimateTokens_nonneg (text t0)) as Hpos.
  intros H. apply Z.ltb_lt in H. apply Z.ltb_lt. lia.
Qed.

End ContextManagerMore.

(** X8.  [summarize] loses no turn: the turns whose transcript it
    hands to the model and the turns it keeps are the older and the
    newer part of the turns, whatever the number of turns to keep. *)
Theorem summarize_splits_the_turns (llm : LLMPlugin) (c : ContextManager.t) :
  ContextManager.nothingToSummarize c = false ->
  failure (llm (ContextManager.summaryPrompt c)) = None ->
  exists older,
    older ++ ContextManager.turns (fst (ContextManager.summarize llm c))
    = ContextManager.turns c /\
    (exists instruction,
        ContextManager.summaryPrompt c
        = [instruction;
           {| role := user;
              content := join ContextManager.newline
                           (List.map ContextManager.renderTurn older) |}]).
Proof.
  intros Hn Hf.
  exists (ContextManager.slice (ContextManager.turns c) 0
            (- ContextManager.recentTurnsToKeep c)).
  split.
  - unfold ContextManager.summarize, forAwait. rewrite Hn, Hf. simpl.
    apply slice_partition.
  - eexists. reflexivity.
Qed.

Lemma summarize_splits_the_turns_witness :
  exists older,
    older ++ ContextManager.turns
               (fst (ContextManager.summarize summaryLLM (tutor (Some 1%Z))))
    = ContextManager.turns (tutor (Some 1%Z)) /\
    (exists instruction,
        ContextManager.summaryPrompt (tutor (Some 1%Z))
        = [instruction;
           {| role := user;
              content := join ContextManager.newline
                           (List.map ContextManager.renderTurn older) |}]).
Proof.
  apply (summarize_splits_the_turns summaryLLM (tutor (Some 1%Z))); reflexivity.
Defined.

(** X9.  What [buildMessages] returns when at least one turn is to be
    kept: the instructions first, then the memory context if it is
    not empty, then either all turns (no summary yet) or the summary
    followed by the last [recentTurnsToKeep] turns only, also when
    more turns than that have come in since the summary was made. *)
Theorem buildMessages_window (memoryContext : option jsstring)
    (c : ContextManager.t) :
  (1 <= ContextManager.recentTurnsToKeep c)%Z ->
  ContextManager.buildMessages memoryContext c
  = {| role := system; content := ContextManager.instructions c |}
    :: match ContextManager.present memoryContext with
       | Some m => [ContextManager.memoryMessage m]
       | None => []
       end
    ++ match ContextManager.present (ContextManager.summary c) with
       | Some s =>
           ContextManager.summaryMessage s
           :: List.map ContextManager.turnMessage
                (drop (length (ContextManager.turns c)
                       - Z.to_nat (ContextManager.recentTurnsToKeep c))
                   (ContextManager.turns c))
       | None => List.map ContextManager.turnMessage (ContextManager.turns c)
       end.
Proof.
  intros Hk. rewrite buildMessages_parts.
  destruct (ContextManager.present memoryContext),
    (ContextManager.present (ContextManager.summary c)); simpl;
    now rewrite ?sliceFrom_neg by exact Hk.
Qed.

Lemma buildMessages_window_witness :
  ContextManager.buildMessages None
    (ContextManager.addUserTurn 3 (str "Bob") (str "Third question")
       (fst (ContextManager.summarize summaryLLM (tutor (Some 1%Z)))))
  = [{| role := system; content := str "You are a helpful tutor." |};
     ContextManager.summaryMessage (str "Summary of the conversation so far.");
     {| role := user; content := str "[Bob]: Third question" |}].
Proof.
  rewrite (buildMessages_window None
             (ContextManager.addUserTurn 3 (str "Bob") (str "Third question")
                (fst (ContextManager.summarize summaryLLM (tutor (Some 1%Z))))));
    [reflexivity|vm_compute; discriminate].
Defined.

(** X10.  Adding a turn never takes the context back under the
    threshold: once [shouldSummarize] answers true it keeps doing so
    whatever turns are added. *)
Theorem shouldSummarize_stays (now : Z) (who words : jsstring)
    (c : ContextManager.t) :
  ContextManager.shouldSummarize c = true ->
  ContextManager.shouldSummarize (ContextManager.addUserTurn now who words c)
  = true /\
  ContextManager.shouldSummarize (ContextManager.addAgentTurn now words c)
  = true.
Proof. intros H. split; now apply shouldSummarize_snoc. Qed.

Lemma shouldSummarize_stays_witness :
  let c := ContextManager.addAgentTurn 3 (str "Second answer") (tutor None) in
  ContextManager.shouldSummarize
    (ContextManager.addUserTurn 4 (str "Bob") (str "Third question") c) = true /\
  ContextManager.shouldSummarize
    (ContextManager.addAgentTurn 4 (str "Third question") c) = true.
Proof.
  apply (shouldSummarize_stays 4 (str "Bob") (str "Third question")
           (ContextManager.addAgentTurn 3 (str "Second answer") (tutor None))).
  vm_compute. reflexivity.
Defined.

(** X11.  After a [summarize] that succeeded, with at least one turn to
    keep, a second [summarize] returns at once: it changes nothing and
    does not call the model. *)
Theorem summarize_again_is_noop (llm llm' : LLMPlugin) (c : ContextManager.t) :
  (1 <= ContextManager.recentTurnsToKeep c)%Z ->
  snd (ContextManager.summarize llm c) = None ->
  ContextManager.summarize llm' (fst (ContextManager.summarize llm c))
  = (fst (ContextManager.summarize llm c), None).
Proof.
  intros Hk Hok. apply summarize_noop. revert Hok.
  unfold ContextManager.summarize.
  destruct (ContextManager.nothingToSummarize c) eqn:Hn.
  - intros _. simpl. now apply Z.leb_le in Hn.
  - destruct (forAwait _ _ _); [|discriminate]. intros _. simpl.
    rewrite sliceFrom_neg by exact Hk. rewrite length_drop.
    unfold ContextManager.nothingToSummarize in Hn. apply Z.leb_gt in Hn. lia.
Qed.

Lemma summarize_again_is_noop_witness :
  ContextManager.summarize failingLLM
    (fst (ContextManager.summarize summaryLLM (tutor (Some 1%Z))))
  = (fst (ContextManager.summarize summaryLLM (tutor (Some 1%Z))), None).
Proof.
  apply (summarize_again_is_noop summaryLLM failingLLM (tutor (Some 1%Z)));
    [vm_compute; discriminate|reflexivity].
Defined.

(** ** Pipeline: the processing flag *)

Section Busy.

Import Pipeline.

Variable toLowerCase : jsstring -> jsstring.
























End Busy.

(** ** Pipeline: transcripts *)

Section TranscriptionFacts.

Import Pipeline.

Variable toLowerCase : jsstring -> jsstring.

Lemma memoryStore_triggerBargeIn (p : t) :
  memoryStore (triggerBargeIn p) = memoryStore p.
Proof. unfold triggerBargeIn. now destruct (BargeIn.trigger _ _). Qed.

Lemma handleTranscription_heard (who : jsstring) (r : TranscriptionResult)
    (p : t) :
  handleTranscription toLowerCase who r p
  = let p3 := heard who r p in
    if isFinal r && truthy (trim (tr_text r)) then
      let p4 := storeTurn who (trim (tr_text r)) false p3 in
      if shouldRespond toLowerCase (config p4) who (trim (tr_text r))
      then processTurn who (trim (tr_text r)) p4
      else onWorld (setAgentState idle) p4
    else if isFinal r then onWorld (setAgentState idle) p3
    else p3.
Proof. reflexivity. Qed.

Lemma quiet_heard (who : jsstring) (r : TranscriptionResult) (p : t) :
  quiet p (heard who r p).
Proof.
  unfold heard. set (p1 := onWorld (emit (transcription who r)) p).
  assert (H1 : quiet p p1) by apply quiet_onWorld.
  destruct (negb (isFinal r) && truthy (trim (tr_text r)));
    destruct (AudioOutput.playing _ && _);
    repeat first [exact H1 | eapply quiet_trans; [|apply quiet_triggerBargeIn]
                 | eapply quiet_trans; [|apply quiet_onWorld]].
Qed.

Lemma memoryStore_heard (who : jsstring) (r : TranscriptionResult) (p : t) :
  memoryStore (heard who r p) = memoryStore p.
Proof.
  unfold heard.
  destruct (negb (isFinal r) && truthy (trim (tr_text r)));
    destruct (AudioOutput.playing _ && _);
    now rewrite ?memoryStore_triggerBargeIn.
Qed.

End TranscriptionFacts.



(** X13.  A transcript that is not final, or that is blank, starts
    nothing: the context, the pending turn, the processing flag, the
    suspended frame and the memory store are as before (such a
    transcript can only emit events and trigger the barge-in). *)
Theorem unfinished_transcript_starts_nothing
    (toLowerCase : jsstring -> jsstring) (who : jsstring)
    (r : Pipeline.TranscriptionResult) (p : Pipeline.t) :
  Pipeline.isFinal r = false \/ trim (Pipeline.tr_text r) = [] ->
  let p' := Pipeline.handleTranscription toLowerCase who r p in
  Pipeline.context p' = Pipeline.context p /\
  Pipeline.pendingTurn p' = Pipeline.pendingTurn p /\
  Pipeline._processing p' = Pipeline._processing p /\
  Pipeline.task p' = Pipeline.task p /\
  Pipeline.memoryStore p' = Pipeline.memoryStore p.
Proof.
  intros H p'. unfold p'. rewrite handleTranscription_heard. cbv zeta.
  pose proof (quiet_heard who r p) as (_ & Hc & Hp & Hq & Ht & _).
  pose proof (memoryStore_heard who r p) as Hm.
  replace (Pipeline.isFinal r && truthy (trim (Pipeline.tr_text r))) with false
    by (destruct H as [-> | ->]; [reflexivity|now rewrite andb_false_r]).
  destruct (Pipeline.isFinal r); simpl; auto.
Qed.

Lemma unfinished_transcript_starts_nothing_witness :
  let p' :=
    Pipeline.handleTranscription Pipeline.asciiLower (str "user1")
      {| Pipeline.tr_text := str "Hello the"; Pipeline.isFinal := false |}
      playingDemo in
  Pipeline.context p' = Pipeline.context playingDemo /\
  Pipeline.pendingTurn p' = Pipeline.pendingTurn playingDemo /\
  Pipeline._processing p' = Pipeline._processing playingDemo /\
  Pipeline.task p' = Pipeline.task playingDemo /\
  Pipeline.memoryStore p' = Pipeline.memoryStore playingDemo.
Proof.
  apply (unfinished_transcript_starts_nothing Pipeline.asciiLower (str "user1")
           {| Pipeline.tr_text := str "Hello the"; Pipeline.isFinal := false |}
           playingDemo).
  left. reflexivity.
Defined.

(** X14.  With a memory collaborator, every final transcript that is
    not blank is handed to it exactly once, trimmed and marked as a
    user turn, whether the agent answers it, queues it or ignores
    it. *)
Theorem final_transcript_is_stored_once
    (toLowerCase : jsstring -> jsstring) (who : jsstring)
    (r : Pipeline.TranscriptionResult) (p : Pipeline.t) :
  Pipeline.memory (Pipeline.config p) = true ->
  Pipeline.isFinal r = true -> truthy (trim (Pipeline.tr_text r)) = true ->
  Pipeline.memoryStore (Pipeline.handleTranscription toLowerCase who r p)
  = Pipeline.memoryStore p ++ [(who, trim (Pipeline.tr_text r), false)].
Proof.
  intros Hmem Hf Ht. rewrite handleTranscription_heard. cbv zeta.
  rewrite Hf, Ht. cbn [andb].
  pose proof (quiet_heard who r p) as (Hcfg & _).
  pose proof (memoryStore_heard who r p) as Hm.
  set (p3 := heard who r p) in *.
  assert (Hs : Pipeline.memoryStore
                 (Pipeline.storeTurn who (trim (Pipeline.tr_text r)) false p3)
               = Pipeline.memoryStore p ++ [(who, trim (Pipeline.tr_text r), false)]).
  { unfold Pipeline.storeTurn. rewrite Hcfg, Hmem. simpl. now rewrite Hm. }
  assert (Hc : Pipeline.memory
                 (Pipeline.config
                    (Pipeline.storeTurn who (trim (Pipeline.tr_text r)) false p3))
               = true).
  { destruct (quiet_storeTurn who (trim (Pipeline.tr_text r)) false p3) as (-> & _).
    now rewrite Hcfg. }
  set (p4 := Pipeline.storeTurn who (trim (Pipeline.tr_text r)) false p3) in *.
  destruct (Pipeline.shouldRespond _ _ _ _); [|exact Hs].
  unfold Pipeline.processTurn. destruct (Pipeline._processing p4).
  - now rewrite memoryStore_triggerBargeIn.
  - unfold Pipeline.startTurn. destruct (_ && _); [exact Hs|].
    unfold Pipeline.afterSummarize.
    destruct (BargeIn.startCycle _) as [sig b]. simpl.
    now rewrite Hc.
Qed.

Lemma final_transcript_is_stored_once_witness :
  Pipeline.memoryStore
    (Pipeline.handleTranscription Pipeline.asciiLower (str "user1")
       {| Pipeline.tr_text := str " Hello there "; Pipeline.isFinal := true |}
       demoWithMemory)
  = [(str "user1", str "Hello there", false)].
Proof.
  apply (final_transcript_is_stored_once Pipeline.asciiLower (str "user1")
           {| Pipeline.tr_text := str " Hello there "; Pipeline.isFinal := true |}
           demoWithMemory); reflexivity.
Defined.

(** ** Pipeline: the agent state and its events *)

Section AgentStateFacts.

Import Pipeline.

Variable toLowerCase : jsstring -> jsstring.

Lemma announced_app (s : AgentState) (l1 l2 : list Event) :
  announced s (l1 ++ l2)
  = match announced s l1 with
    | Some s' => announced s' l2
    | None => None
    end.
Proof.
  revert s. induction l1 as [|e l1 IH]; intros s; [reflexivity|].
  destruct e; simpl; try apply IH.
  destruct (AgentState_eqb s state); [reflexivity|apply IH].
Qed.

Lemma state_announced_emit (e : Event) (w : World) :
  is_agentState e = false -> state_announced w -> state_announced (emit e w).
Proof.
  unfold state_announced, emit. simpl. intros He H.
  rewrite announced_app, H. now destruct e.
Qed.

Lemma state_announced_setAgentState (s : AgentState) (w : World) :
  state_announced w -> state_announced (setAgentState s w).
Proof.
  unfold state_announced, setAgentState. intros H.
  destruct (AgentState_eqb (_agentState w) s) eqn:E; [exact H|].
  simpl. rewrite announced_app, H. simpl. now rewrite E.
Qed.

Lemma state_announced_onInterrupt (w : World) :
  state_announced w -> state_announced (onInterrupt w).
Proof. intros H. unfold onInterrupt. now apply state_announced_setAgentState. Qed.

Lemma logged_same (p p' : t) :
  world p' = world p -> bargeIn p' = bargeIn p -> logged p -> logged p'.
Proof. unfold logged. now intros -> ->. Qed.

Lemma logged_emit (e : Event) (p : t) :
  is_agentState e = false -> logged p -> logged (onWorld (emit e) p).
Proof.
  intros He [H1 H2]. split; [|exact H2]. now apply state_announced_emit.
Qed.

Lemma logged_setAgentState (s : AgentState) (p : t) :
  logged p -> logged (onWorld (setAgentState s) p).
Proof.
  intros [H1 H2]. split; [|exact H2]. now apply state_announced_setAgentState.
Qed.

Lemma logged_onAudio (f : AudioOutput.t -> AudioOutput.t) (p : t) :
  logged p -> logged (onAudio f p).
Proof. intros [H1 H2]. split; [exact H1|exact H2]. Qed.

Lemma logged_set_splitter (s : SentenceSplitter.t) (p : t) :
  logged p -> logged (onWorld (set_splitter s) p).
Proof. intros [H1 H2]. split; [exact H1|exact H2]. Qed.

Lemma logged_triggerBargeIn (p : t) : logged p -> logged (triggerBargeIn p).
Proof.
  intros [H1 H2]. unfold triggerBargeIn, BargeIn.trigger.
  destruct (BargeIn._interrupted (bargeIn p)); [now split|].
  rewrite H2. split; [|reflexivity]. now apply state_announced_onInterrupt.
Qed.

Lemma logged_storeTurn (who words : jsstring) (agent : bool) (p : t) :
  logged p -> logged (storeTurn who words agent p).
Proof. unfold storeTurn. now destruct (memory _). Qed.

Lemma logged_producerChunk (chunk : LLMChunk) (p : t) (c : Cycle) :
  logged p -> logged (fst (producerChunk chunk p c)).
Proof.
  intros H. unfold producerChunk.
  destruct (type chunk), (segment chunk), (ContextManager.present (token chunk));
    try exact H;
    destruct (SentenceSplitter.push _ _); now apply logged_set_splitter.
Qed.

Lemma logged_producerExit (p : t) (c : Cycle) :
  logged p -> logged (fst (producerExit p c)).
Proof.
  intros H. unfold producerExit. destruct (signalAborted _ _); [exact H|].
  destruct (SentenceSplitter.flush _). now apply logged_set_splitter.
Qed.

Lemma logged_consumerExit (p : t) (c : Cycle) :
  logged p -> logged (fst (consumerExit p c)).
Proof.
  intros H. unfold consumerExit. simpl fst.
  destruct (signalAborted _ _); repeat apply logged_onAudio; exact H.
Qed.

Lemma logged_consumerLoop (queue : list jsstring) (p : t) (c : Cycle) :
  logged p -> logged (fst (consumerLoop queue p c)).
Proof.
  intros H. revert c. induction queue as [|s0 rest IH]; intros c; simpl;
    destruct (signalAborted p (signal c)); try now apply logged_consumerExit.
  - destruct (producerDone c); [now apply logged_consumerExit|exact H].
  - destruct (negb (test wordRe s0)); [apply IH|].
    destruct (negb _ || _); [apply IH|now apply logged_onAudio].
Qed.

Lemma logged_resumeConsumer (p : t) (c : Cycle) :
  logged p -> logged (fst (resumeConsumer p c)).
Proof.
  intros H. unfold resumeConsumer.
  destruct (consumer c); try exact H. now apply logged_consumerLoop.
Qed.

Lemma logged_cycleResolved (p : t) (c : Cycle) :
  logged p -> logged (cycleResolved p c).
Proof.
  intros H. unfold cycleResolved. destruct (truthy _); [|exact H].
  apply (logged_same
           (onWorld (emit (response (cleanTextOf (config p) (trim (fullResponse c)))))
              (storeTurn (str "assistant") (trim (fullResponse c)) true
                 (set_context
                    (ContextManager.addAgentTurn (clock p) (trim (fullResponse c))
                       (context p)) p)))); [reflexivity|reflexivity|].
  apply logged_emit; [reflexivity|]. apply logged_storeTurn. exact H.
Qed.

Lemma logged_settle (pc : t * Cycle) : logged (fst pc) -> logged (settle pc).
Proof.
  destruct pc as [p c]. simpl. intros H. unfold settle.
  destruct (_ && _); [now apply logged_cycleResolved|exact H].
Qed.

Lemma logged_beginCycle (sig : nat) (memoryContext : jsstring) (p : t) :
  logged p -> logged (beginCycle sig memoryContext p).
Proof.
  intros H. unfold beginCycle.
  set (p1 := onWorld (setAgentState thinking) p).
  set (c0 := Build_Cycle _ _ _ _ _ _ _ _).
  assert (H1 : logged p1) by now apply logged_setAgentState.
  assert (H2 : logged (fst (if signalAborted p1 sig then producerExit p1 c0
                            else (p1, c0)))).
  { destruct (signalAborted p1 sig); [now apply logged_producerExit|exact H1]. }
  destruct (if signalAborted p1 sig then producerExit p1 c0 else (p1, c0))
    as [p2 c1].
  apply logged_settle, logged_consumerLoop, logged_onAudio. exact H2.
Qed.

Lemma logged_afterSummarize (text : jsstring) (p : t) :
  logged p -> logged (afterSummarize text p).
Proof.
  intros H. unfold afterSummarize, BargeIn.startCycle.
  destruct (memory _); [exact H|]. apply logged_beginCycle. exact H.
Qed.

Lemma logged_startTurn (who words : jsstring) (p : t) :
  logged p -> logged (startTurn who words p).
Proof.
  intros H. unfold startTurn. destruct (_ && _); [exact H|].
  apply logged_afterSummarize. exact H.
Qed.

Lemma logged_processTurn (who words : jsstring) (p : t) :
  logged p -> logged (processTurn who words p).
Proof.
  intros H. unfold processTurn. destruct (_processing p).
  - apply logged_triggerBargeIn. exact H.
  - now apply logged_startTurn.
Qed.

Lemma logged_drainPending (p : t) : logged p -> logged (drainPending p).
Proof.
  intros H. unfold drainPending. destruct (pendingTurn p) as [[who words]|];
    [|exact H].
  apply logged_processTurn. exact H.
Qed.

Lemma logged_finallyTurn (p : t) : logged p -> logged (finallyTurn p).
Proof. intros H. unfold finallyTurn. apply logged_drainPending. exact H. Qed.

Lemma logged_finallySay (p : t) : logged p -> logged (finallySay p).
Proof. intros H. unfold finallySay. apply logged_drainPending. exact H. Qed.

Lemma logged_catchError (e : JsError) (p : t) :
  logged p -> logged (catchError e p).
Proof.
  intros H. unfold catchError. destruct (isAbortError e); [exact H|].
  now apply logged_emit.
Qed.

Lemma logged_turnFailed (e : JsError) (p : t) :
  logged p -> logged (turnFailed e p).
Proof. intros H. now apply logged_finallyTurn, logged_catchError. Qed.

Lemma logged_sayAfter (text : jsstring) (sig : nat) (p : t) :
  logged p -> logged (sayAfter text sig p).
Proof.
  intros H. unfold sayAfter. destruct (signalAborted _ _); [exact H|].
  apply (logged_same
           (onWorld (emit (response (cleanTextOf (config p) text)))
              (storeTurn (str "assistant") text true
                 (onAudio (AudioOutput.writeSilence 40) p))));
    [unfold storeTurn; simpl; now destruct (memory _)
    |unfold storeTurn; simpl; now destruct (memory _)|].
  apply logged_emit; [reflexivity|]. apply logged_storeTurn.
  now apply logged_onAudio.
Qed.

Lemma logged_say (text : jsstring) (p : t) : logged p -> logged (say text p).
Proof.
  intros H. unfold say. destruct (_processing p); [exact H|].
  unfold BargeIn.startCycle.
  match goal with |- context [onWorld (setAgentState thinking) ?q] =>
    assert (H3 : logged (onWorld (setAgentState thinking) q))
      by (apply logged_setAgentState; exact H) end.
  destruct (negb _ || _).
  - now apply logged_sayAfter.
  - exact H3.
Qed.

Lemma logged_handleTranscription (who : jsstring) (r : TranscriptionResult)
    (p : t) :
  logged p -> logged (handleTranscription toLowerCase who r p).
Proof.
  intros H. unfold handleTranscription.
  set (p1 := onWorld (emit (transcription who r)) p).
  assert (H1 : logged p1) by now apply logged_emit.
  set (p2 := if negb (isFinal r) && truthy (trim (tr_text r))
             then onWorld (setAgentState listening) p1 else p1).
  assert (H2 : logged p2)
    by (unfold p2; destruct (negb _ && _);
        [now apply logged_setAgentState|exact H1]).
  set (p3 := if AudioOutput.playing (audioOutput (world p2))
                && (0 <? length (trim (tr_text r)))
             then triggerBargeIn p2 else p2).
  assert (H3 : logged p3)
    by (unfold p3; destruct (AudioOutput.playing _ && _);
        [now apply logged_triggerBargeIn|exact H2]).
  destruct (isFinal r && truthy (trim (tr_text r))).
  - destruct (shouldRespond _ _ _ _).
    + now apply logged_processTurn, logged_storeTurn.
    + now apply logged_setAgentState, logged_storeTurn.
  - destruct (isFinal r); [now apply logged_setAgentState|exact H3].
Qed.

Lemma logged_onLLMNext (r : IteratorResult) (p : t) (c : Cycle) :
  logged p -> logged (onLLMNext r p c).
Proof.
  intros H. unfold onLLMNext. destruct r as [chunk| |e].
  - destruct (signalAborted p (signal c)).
    + pose proof (logged_producerExit p c H) as Hq.
      destruct (producerExit p c) as [p1 c1].
      now apply logged_settle, logged_resumeConsumer.
    + pose proof (logged_producerChunk chunk p c H) as Hq.
      destruct (producerChunk chunk p c) as [p1 c1].
      now apply logged_settle, logged_resumeConsumer.
  - pose proof (logged_producerExit p c H) as Hq.
    destruct (producerExit p c) as [p1 c1].
    now apply logged_settle, logged_resumeConsumer.
  - now apply logged_turnFailed.
Qed.

Lemma logged_onTtsEnd (r : option JsError) (p : t) (c : Cycle) :
  logged p -> logged (onTtsEnd r p c).
Proof.
  intros H. unfold onTtsEnd.
  assert (H1 : logged (onAudio (AudioOutput.set_playing false) p))
    by now apply logged_onAudio.
  destruct r as [e|]; [destruct (isAbortError e)|].
  - now apply logged_settle, logged_consumerLoop.
  - now apply logged_turnFailed, logged_consumerExit.
  - now apply logged_settle, logged_consumerLoop.
Qed.

Lemma logged_step (p : t) (tick : Tick) :
  logged p -> logged (step toLowerCase p tick).
Proof.
  intros H. destruct tick; simpl.
  - now apply logged_handleTranscription.
  - now apply logged_say.
  - exact H.
  - exact H.
  - destruct (task p); try exact H.
    destruct (ContextManager.summarize llm (context p)) as [ctx [e|]].
    + apply logged_turnFailed. exact H.
    + apply logged_afterSummarize. exact H.
  - destruct (task p); try exact H. now apply logged_beginCycle.
  - destruct (task p); try exact H.
    destruct (producerDone c); [exact H|]. now apply logged_onLLMNext.
  - destruct (task p); try exact H.
    + destruct (consumer c) as [| | |s0 [|]|]; try exact H.
      unfold onFirstAudio.
      apply (logged_same
               (onWorld (emit (sentence (cleanTextOf (config p) s0)))
                  (if tFirstAudioPlayed c then p
                   else onWorld (setAgentState speaking) p)));
        [reflexivity|reflexivity|].
      apply logged_emit; [reflexivity|].
      destruct (tFirstAudioPlayed c); [exact H|now apply logged_setAgentState].
    + destruct firstChunk; [|exact H].
      apply (logged_same
               (onWorld (emit (sentence (cleanTextOf (config p) text)))
                  (onWorld (setAgentState speaking) p)));
        [reflexivity|reflexivity|].
      apply logged_emit; [reflexivity|]. now apply logged_setAgentState.
  - destruct (task p); try exact H.
    + destruct (consumer c); try exact H. now apply logged_onTtsEnd.
    + assert (H1 : logged (onAudio (AudioOutput.set_playing false) p))
        by now apply logged_onAudio.
      destruct r as [e|]; [destruct (isAbortError e)|].
      * now apply logged_sayAfter.
      * now apply logged_finallySay, logged_catchError.
      * now apply logged_sayAfter.
  - destruct (task p); try exact H.
    + now apply logged_finallyTurn, logged_setAgentState.
    + now apply logged_finallySay, logged_setAgentState.
Qed.

Lemma logged_run (ticks : list Tick) (p : t) :
  logged p -> logged (run toLowerCase p ticks).
Proof.
  revert p. induction ticks as [|tick ticks IH]; intros p H; [exact H|].
  simpl. apply IH. now apply logged_step.
Qed.

End AgentStateFacts.

(** X15.  The [agentState] events are the changes of the agent state
    and nothing else: in the log of every run, read from the initial
    state idle, no event announces the state the agent is already in,
    and the last one announces the state the agent is in now. *)
Theorem agent_state_events_are_transitions
    (toLowerCase : jsstring -> jsstring)
    (options : Pipeline.PipelineOptions) (ticks : list Pipeline.Tick) :
  let p := Pipeline.run toLowerCase (Pipeline.create toLowerCase options) ticks in
  announced Pipeline.idle (Pipeline.emitted (Pipeline.world p))
  = Some (Pipeline._agentState (Pipeline.world p)).
Proof.
  intros p. apply (logged_run toLowerCase ticks). split; reflexivity.
Qed.

(** ** Pipeline: a cycle from the transcript to the response *)

Section Streaming.

Import Pipeline.

Variable toLowerCase : jsstring -> jsstring.

Lemma consumerLoop_without_tts (queue : list jsstring) (p : t) (c : Cycle) :
  tts (config p) = None -> signalAborted p (signal c) = false ->
  consumerLoop queue p c
  = if producerDone c then consumerExit p (set_sentenceQueue [] c)
    else (p, set_consumer CWaiting (set_sentenceQueue [] c)).
Proof.
  intros Htts Hsig. induction queue as [|s0 rest IH]; simpl; rewrite Hsig.
  - reflexivity.
  - rewrite Htts. simpl. now destruct (negb (test wordRe s0)).
Qed.

Lemma pushSentences_spec (sentences : list jsstring) (c : Cycle) :
  let c' := fold_left (fun c0 s0 => pushSentence false s0 c0) sentences c in
  fullResponse c' = fullResponse c /\ signal c' = signal c /\
  segBuf c' = segBuf c /\ producerDone c' = producerDone c /\
  (consumer c = CWaiting \/ consumer c = CWoken ->
   consumer c' = match sentences with [] => consumer c | _ => CWoken end).
Proof.
  revert c. induction sentences as [|s0 rest IH]; intros c; [now repeat split|].
  simpl. destruct (IH (pushSentence false s0 c)) as (H1 & H2 & H3 & H4 & H5).
  unfold pushSentence, wake in *. simpl in *.
  destruct (consumer c) eqn:Ec; simpl in *;
    rewrite H1, H2, H3, H4; repeat split; intros [?|?]; try discriminate;
    rewrite H5 by auto; now destruct rest.
Qed.

Lemma token_step (tok full : jsstring) (p : t) (c : Cycle) :
  task p = Responding c -> streaming c full ->
  signalAborted p (signal c) = false -> tts (config p) = None ->
  exists c' sp,
    step toLowerCase p (LLMNext (NextYield (tokenChunk tok)))
    = set_task (Responding c') (onWorld (set_splitter sp) p) /\
    streaming c' (full ++ tok) /\ signal c' = signal c.
Proof.
  intros Htask (Hfull & Hcons & Hqueue & Hseg & Hdone) Hsig Htts.
  simpl. rewrite Htask, Hdone. unfold onLLMNext. rewrite Hsig.
  unfold producerChunk. rewrite Hsig. cbv zeta.
  simpl type. simpl segment. simpl token.
  destruct tok as [|x tok].
  - simpl. unfold resumeConsumer. rewrite Hcons. unfold settle. rewrite Hdone.
    simpl. exists c, (splitter (world p)). rewrite app_nil_r.
    split; [|now repeat split].
    destruct p as [? ? ? [? ? ? ?] ? ? ? ? ?]. reflexivity.
  - cbn [ContextManager.present truthy].
    destruct (SentenceSplitter.push (splitter (world p)) (x :: tok))
      as [sentences sp].
    set (c1 := set_fullResponse (fullResponse c ++ x :: tok) c).
    destruct (pushSentences_spec sentences c1) as (H1 & H2 & H3 & H4 & H5).
    set (c2 := fold_left (fun c' s0 => pushSentence false s0 c') sentences c1) in *.
    specialize (H5 (or_introl Hcons)).
    destruct sentences as [|s0 rest].
    + unfold resumeConsumer. rewrite H5. simpl consumer. rewrite Hcons.
      unfold settle. rewrite H4. simpl. rewrite Hdone. simpl.
      exists c2, sp. split; [reflexivity|]. split; [|exact H2].
      unfold streaming. rewrite H1, H3, H4, H5. simpl.
      rewrite Hfull, Hdone, Hseg, Hcons. repeat split. exact Hqueue.
    + unfold resumeConsumer. rewrite H5.
      rewrite consumerLoop_without_tts by (try exact Htts; now rewrite H2).
      rewrite H4. simpl producerDone. rewrite Hdone.
      unfold settle. simpl. rewrite H4. simpl. rewrite Hdone. simpl.
      eexists _, sp. split; [reflexivity|]. split; [|exact H2].
      unfold streaming. simpl. rewrite H1, H3, H4. simpl.
      rewrite Hfull, Hdone, Hseg. repeat split.
Qed.

Lemma tokens_run (toks : list jsstring) (full : jsstring) (p : t) (c : Cycle) :
  task p = Responding c -> streaming c full ->
  signalAborted p (signal c) = false -> tts (config p) = None ->
  exists c' sp,
    run toLowerCase p (tokenTicks toks)
    = set_task (Responding c') (onWorld (set_splitter sp) p) /\
    streaming c' (full ++ concat toks) /\ signal c' = signal c.
Proof.
  revert full p c. induction toks as [|tok toks IH];
    intros full p c Htask Hstr Hsig Htts.
  - exists c, (splitter (world p)). simpl. rewrite app_nil_r.
    split; [|now split].
    destruct p as [? ? ? [? ? ? ?] ? ? ? ? ?]. simpl in Htask. now subst.
  - change (run toLowerCase p (tokenTicks (tok :: toks)))
      with (run toLowerCase
              (step toLowerCase p (LLMNext (NextYield (tokenChunk tok))))
              (tokenTicks toks)).
    destruct (token_step tok full p c Htask Hstr Hsig Htts)
      as (c1 & sp1 & -> & Hstr1 & Hs1).
    destruct (IH (full ++ tok)
                (set_task (Responding c1) (onWorld (set_splitter sp1) p)) c1)
      as (c2 & sp2 & Hrun & Hstr2 & Hs2);
      [reflexivity|exact Hstr1|now rewrite Hs1|exact Htts|].
    exists c2, sp2. rewrite Hrun.
    split; [reflexivity|]. split; [|congruence].
    simpl concat. rewrite app_assoc. exact Hstr2.
Qed.

Lemma done_step (full : jsstring) (p : t) (c : Cycle) :
  task p = Responding c -> streaming c full ->
  signalAborted p (signal c) = false -> tts (config p) = None ->
  exists c' sp,
    step toLowerCase p (LLMNext NextDone)
    = cycleResolved
        (onAudio AudioOutput.endResponse
           (onAudio (AudioOutput.writeSilence 40)
              (onWorld (set_splitter sp) p))) c' /\
    fullResponse c' = full.
Proof.
  intros Htask (Hfull & Hcons & Hqueue & Hseg & Hdone) Hsig Htts.
  simpl. rewrite Htask, Hdone. unfold onLLMNext, producerExit.
  rewrite Hsig. cbv zeta. unfold flushSegments. rewrite Hseg.
  destruct (SentenceSplitter.flush (splitter (world p))) as [remaining sp].
  exists (set_consumer CDone
            (set_sentenceQueue []
               (wake (set_producerDone true
                        match ContextManager.present remaining with
                        | Some r => pushSentence false r c
                        | None => c
                        end)))), sp.
  split; [|destruct (ContextManager.present remaining); unfold pushSentence, wake;
           simpl; rewrite ?Hcons; simpl; exact Hfull].
  unfold resumeConsumer.
  destruct (ContextManager.present remaining) as [r|];
    unfold pushSentence, wake; simpl consumer; rewrite Hcons; simpl consumer;
    (rewrite consumerLoop_without_tts by (try exact Htts; exact Hsig));
    simpl producerDone; unfold consumerExit; simpl signal;
    (replace (signalAborted (onWorld (set_splitter sp) p) (signal c)) with false
       by (symmetry; exact Hsig));
    unfold settle; reflexivity.
Qed.

Lemma first_step (options : PipelineOptions) (who : jsstring)
    (r : TranscriptionResult) :
  opt_tts options = None -> opt_memory options = false ->
  isFinal r = true -> truthy (trim (tr_text r)) = true ->
  shouldRespond toLowerCase (config (create toLowerCase options)) who
    (trim (tr_text r)) = true ->
  let p1 := step toLowerCase (create toLowerCase options) (Transcription who r) in
  exists c,
    task p1 = Responding c /\ streaming c [] /\
    signalAborted p1 (signal c) = false /\ tts (config p1) = None /\
    emitted (world p1) = [transcription who r; agentState thinking] /\
    _agentState (world p1) = thinking /\
    ContextManager.turns (context p1)
    = [{| ContextManager.speaker := who;
          ContextManager.text := trim (tr_text r);
          ContextManager.isAgent := false;
          ContextManager.timestamp := 0 |}] /\
    pendingTurn p1 = None /\ clock p1 = 0%Z /\ memory (config p1) = false.
Proof.
  intros Htts Hmem Hfinal Htext Hresp p1. unfold p1.
  cbn [step]. unfold handleTranscription. rewrite Hfinal, Htext.
  cbn [negb andb]. unfold storeTurn. cbn. rewrite Hmem.
  change (config (onWorld (emit (transcription who r)) (create toLowerCase options)))
    with (config (create toLowerCase options)).
  rewrite Hresp. unfold processTurn, startTurn. cbn.
  rewrite andb_false_r. unfold afterSummarize. cbn. rewrite Hmem.
  unfold beginCycle. cbn. rewrite Htts. cbn.
  eexists. split; [reflexivity|]. repeat split; try reflexivity;
    cbn; assumption.
Qed.

End Streaming.

(** X16.  A cycle that nothing interrupts, in a pipeline without TTS
    plugin and without memory: when the stream has yielded its tokens
    and ended, the response that is emitted and recorded as the
    agent's turn is the concatenation of the tokens, trimmed (nothing
    is emitted or recorded if that is empty), and the pipeline is back
    at rest in the state idle. *)
Theorem streamed_tokens_make_the_response
    (toLowerCase : jsstring -> jsstring) (options : Pipeline.PipelineOptions)
    (who : jsstring) (r : Pipeline.TranscriptionResult) (toks : list jsstring) :
  Pipeline.opt_tts options = None -> Pipeline.opt_memory options = false ->
  Pipeline.isFinal r = true -> truthy (trim (Pipeline.tr_text r)) = true ->
  Pipeline.shouldRespond toLowerCase
    (Pipeline.config (Pipeline.create toLowerCase options)) who
    (trim (Pipeline.tr_text r)) = true ->
  let p :=
    Pipeline.run toLowerCase (Pipeline.create toLowerCase options)
      (Pipeline.Transcription who r
       :: tokenTicks toks
       ++ [Pipeline.LLMNext NextDone; Pipeline.DrainElapsed]) in
  let full := trim (concat toks) in
  events p
  = [Pipeline.transcription who r; Pipeline.agentState Pipeline.thinking]
    ++ (if truthy full then [Pipeline.response full] else [])
    ++ [Pipeline.agentState Pipeline.idle] /\
  ContextManager.turns (Pipeline.context p)
  = {| ContextManager.speaker := who;
       ContextManager.text := trim (Pipeline.tr_text r);
       ContextManager.isAgent := false;
       ContextManager.timestamp := 0 |}
    :: (if truthy full
        then [{| ContextManager.speaker := str "assistant";
                 ContextManager.text := full;
                 ContextManager.isAgent := true;
                 ContextManager.timestamp := 0 |}]
        else []) /\
  Pipeline._processing p = false /\ Pipeline.task p = Pipeline.Idle.
Proof.
  intros Htts Hmem Hfinal Htext Hresp p full. unfold p, events.
  change (Pipeline.run toLowerCase (Pipeline.create toLowerCase options)
            (Pipeline.Transcription who r
             :: tokenTicks toks
             ++ [Pipeline.LLMNext NextDone; Pipeline.DrainElapsed]))
    with (Pipeline.run toLowerCase
            (Pipeline.step toLowerCase (Pipeline.create toLowerCase options)
               (Pipeline.Transcription who r))
            (tokenTicks toks
             ++ [Pipeline.LLMNext NextDone; Pipeline.DrainElapsed])).
  pose proof (first_step toLowerCase options who r Htts Hmem Hfinal Htext Hresp)
    as H1. cbv zeta in H1.
  set (p1 := Pipeline.step toLowerCase _ _) in *. clearbody p1.
  destruct H1 as (c & Htask & Hstr & Hsig & Htts1 & Hev & Hst & Hturns & Hpend
                  & Hclock & Hmem1).
  unfold Pipeline.run. rewrite fold_left_app.
  destruct (tokens_run toLowerCase toks [] p1 c Htask Hstr Hsig Htts1)
    as (c2 & sp2 & Hrun & Hstr2 & Hs2).
  unfold Pipeline.run in Hrun. rewrite Hrun. clear Hrun.
  set (p2 := Pipeline.set_task _ _).
  destruct (done_step toLowerCase (concat toks) p2 c2)
    as (c3 & sp3 & Hdone & Hfull);
    [reflexivity|exact Hstr2|now rewrite Hs2|exact Htts1|].
  cbn [fold_left]. rewrite Hdone. clear Hdone.
  unfold Pipeline.cycleResolved. rewrite Hfull. fold full.
  unfold Pipeline.storeTurn, Pipeline.cleanTextOf.
  destruct (truthy full); cbn; rewrite ?Hmem1, ?Htts1; cbn;
    unfold Pipeline.finallyTurn, Pipeline.drainPending; cbn;
    rewrite ?Hmem1; cbn; rewrite Hpend; cbn;
    unfold Pipeline.setAgentState; cbn; rewrite Hst; cbn;
    rewrite Hev, Hturns, ?Hclock; repeat split.
Qed.

Lemma streamed_tokens_make_the_response_witness :
  let p :=
    Pipeline.run Pipeline.asciiLower
      (Pipeline.create Pipeline.asciiLower silentOptions)
      (finalTranscript "user1" "Hello"
       :: tokenTicks [str " Hi"; []; str " there. "]
       ++ [Pipeline.LLMNext NextDone; Pipeline.DrainElapsed]) in
  events p
  = [Pipeline.transcription (str "user1")
       {| Pipeline.tr_text := str "Hello"; Pipeline.isFinal := true |};
     Pipeline.agentState Pipeline.thinking;
     Pipeline.response (str "Hi there.");
     Pipeline.agentState Pipeline.idle] /\
  ContextManager.turns (Pipeline.context p)
  = [{| ContextManager.speaker := str "user1";
        ContextManager.text := str "Hello";
        ContextManager.isAgent := false;
        ContextManager.timestamp := 0 |};
     {| ContextManager.speaker := str "assistant";
        ContextManager.text := str "Hi there.";
        ContextManager.isAgent := true;
        ContextManager.timestamp := 0 |}] /\
  Pipeline._processing p = false /\ Pipeline.task p = Pipeline.Idle.
Proof.
  apply (streamed_tokens_make_the_response Pipeline.asciiLower silentOptions
           (str "user1")
           {| Pipeline.tr_text := str "Hello"; Pipeline.isFinal := true |}
           [str " Hi"; []; str " there. "]); reflexivity.
Defined.

(** ** Pipeline: [say] *)

Lemma aborted_fresh {W} (b : BargeIn.t W) :
  BargeIn.aborted (snd (BargeIn.startCycle b)) (fst (BargeIn.startCycle b))
  = false.
Proof.
  unfold BargeIn.aborted, BargeIn.startCycle. simpl.
  rewrite lookup_app_r by lia. now rewrite Nat.sub_diag.
Qed.


Section SayFacts.

Import Pipeline.

Variable toLowerCase : jsstring -> jsstring.

Lemma say_begins (text : jsstring) (p : t) :
  _processing p = false ->
  let sig := fst (BargeIn.startCycle (bargeIn p)) in
  say text p
  = match tts (config p) with
    | Some _ =>
        set_task (Saying text sig true)
          (onAudio (AudioOutput.set_playing true) (sayPrologue p))
    | None => sayAfter text sig (sayPrologue p)
    end.
Proof.
  intros Hproc sig. unfold say. rewrite Hproc.
  change (BargeIn.startCycle (bargeIn (set_processing true p)))
    with (sig, snd (BargeIn.startCycle (bargeIn p))).
  cbv iota beta. fold (sayPrologue p).
  change (signalAborted (sayPrologue p) sig)
    with (BargeIn.aborted (snd (BargeIn.startCycle (bargeIn p)))
            (fst (BargeIn.startCycle (bargeIn p)))).
  rewrite aborted_fresh.
  change (tts (config (sayPrologue p))) with (tts (config p)).
  now destruct (tts (config p)).
Qed.

Lemma sayAfter_live (text : jsstring) (sig : nat) (p : t) :
  signalAborted p sig = false ->
  sayAfter text sig p
  = set_task SayDraining
      (onWorld (emit (response (cleanTextOf (config p) text)))
         (storeTurn (str "assistant") text true
            (set_context
               (ContextManager.addAgentTurn (clock p) text (context p))
               (onAudio (AudioOutput.writeSilence 40) p)))).
Proof. intros H. unfold sayAfter. now rewrite H. Qed.

Lemma finallySay_rest (p : t) :
  pendingTurn p = None ->
  finallySay p
  = set_bargeIn (BargeIn.reset (bargeIn p))
      (onAudio AudioOutput.endResponse (set_task Idle (set_processing false p))).
Proof.
  intros H. unfold finallySay, drainPending.
  change (pendingTurn (set_bargeIn _ _)) with (pendingTurn p). now rewrite H.
Qed.

Lemma setAgentState_changes (s : AgentState) (w : World) :
  AgentState_eqb (_agentState w) s = false ->
  setAgentState s w
  = {| audioOutput := audioOutput w; splitter := splitter w;
       _agentState := s; emitted := emitted w ++ [agentState s] |}.
Proof. intros H. unfold setAgentState. now rewrite H. Qed.

Lemma agentState_setAgentState (s : AgentState) (w : World) :
  _agentState (setAgentState s w) = s.
Proof.
  unfold setAgentState. destruct (AgentState_eqb (_agentState w) s) eqn:E;
    [|reflexivity].
  now destruct (_agentState w), s.
Qed.

Lemma emitted_setAgentState (s : AgentState) (w : World) :
  emitted (setAgentState s w)
  = emitted w
    ++ (if AgentState_eqb (_agentState w) s then [] else [agentState s]).
Proof.
  unfold setAgentState. destruct (AgentState_eqb (_agentState w) s);
    [now rewrite app_nil_r|reflexivity].
Qed.

Lemma storeTurn_world (who words : jsstring) (agent : bool) (p : t) :
  world (storeTurn who words agent p) = world p.
Proof. unfold storeTurn. now destruct (memory _). Qed.

Lemma storeTurn_context (who words : jsstring) (agent : bool) (p : t) :
  context (storeTurn who words agent p) = context p.
Proof. unfold storeTurn. now destruct (memory _). Qed.

Lemma storeTurn_bargeIn (who words : jsstring) (agent : bool) (p : t) :
  bargeIn (storeTurn who words agent p) = bargeIn p.
Proof. unfold storeTurn. now destruct (memory _). Qed.

Lemma storeTurn_pendingTurn (who words : jsstring) (agent : bool) (p : t) :
  pendingTurn (storeTurn who words agent p) = pendingTurn p.
Proof. unfold storeTurn. now destruct (memory _). Qed.

Lemma step_say_firstAudio (text : jsstring) (sig : nat) (p : t) :
  step toLowerCase (set_task (Saying text sig true) p) TtsFirstAudio
  = set_task (Saying text sig false)
      (onWorld (emit (sentence (cleanTextOf (config p) text)))
         (onWorld (setAgentState speaking) p)).
Proof. reflexivity. Qed.

Lemma step_say_ttsEnd (text : jsstring) (sig : nat) (first : bool) (p : t) :
  step toLowerCase (set_task (Saying text sig first) p) (TtsEnd None)
  = sayAfter text sig
      (onAudio (AudioOutput.set_playing false)
         (set_task (Saying text sig first) p)).
Proof. reflexivity. Qed.

(** [say], when nothing interrupts it, from the state in which
    [synthesizeAndPlay] has returned. *)
Lemma say_epilogue (text : jsstring) (sig : nat) (p : t) :
  signalAborted p sig = false -> pendingTurn p = None ->
  let p' := step toLowerCase (sayAfter text sig p) DrainElapsed in
  ContextManager.turns (context p')
  = ContextManager.turns (context p)
    ++ [{| ContextManager.speaker := str "assistant";
           ContextManager.text := text;
           ContextManager.isAgent := true;
           ContextManager.timestamp := clock p |}] /\
  emitted (world p')
  = (emitted (world p) ++ [response (cleanTextOf (config p) text)])
    ++ (if AgentState_eqb (_agentState (world p)) idle then []
        else [agentState idle]) /\
  _processing p' = false /\ task p' = Idle /\
  _agentState (world p') = idle.
Proof.
  intros Hsig Hpend p'. unfold p'. rewrite (sayAfter_live text sig p Hsig).
  cbn [step task set_task]. rewrite finallySay_rest
    by (cbn [pendingTurn onWorld set_world set_task];
        now rewrite storeTurn_pendingTurn).
  cbn [context world _processing task set_bargeIn onAudio onWorld set_world
       set_task set_processing _agentState emitted set_audioOutput].
  rewrite agentState_setAgentState, emitted_setAgentState.
  rewrite storeTurn_context, !storeTurn_world.
  repeat split.
Qed.

End SayFacts.

(** X17.  [say] on a pipeline at rest, when nothing interrupts it:
    the text is spoken if there is a TTS plugin, it is recorded as the
    agent's turn as it is (not trimmed, and also when it is empty),
    the response is emitted, and the pipeline is back at rest in the
    state idle. *)
Theorem say_speaks_and_records (toLowerCase : jsstring -> jsstring)
    (text : jsstring) (p : Pipeline.t) :
  Pipeline._processing p = false -> Pipeline.pendingTurn p = None ->
  Pipeline._agentState (Pipeline.world p) = Pipeline.idle ->
  let p' := Pipeline.run toLowerCase p (sayTicks (Pipeline.config p) text) in
  let spoken := Pipeline.cleanTextOf (Pipeline.config p) text in
  ContextManager.turns (Pipeline.context p')
  = ContextManager.turns (Pipeline.context p)
    ++ [{| ContextManager.speaker := str "assistant";
           ContextManager.text := text;
           ContextManager.isAgent := true;
           ContextManager.timestamp := Pipeline.clock p |}] /\
  events p'
  = events p
    ++ Pipeline.agentState Pipeline.thinking
    :: match Pipeline.tts (Pipeline.config p) with
       | Some _ => [Pipeline.agentState Pipeline.speaking; Pipeline.sentence spoken]
       | None => []
       end
    ++ [Pipeline.response spoken; Pipeline.agentState Pipeline.idle] /\
  Pipeline._processing p' = false /\ Pipeline.task p' = Pipeline.Idle /\
  Pipeline._agentState (Pipeline.world p') = Pipeline.idle.
Proof.
  intros Hproc Hpend Hidle p' spoken. unfold p', spoken, sayTicks, events.
  clear p' spoken.
  pose proof (say_begins text p Hproc) as Hsay. cbv zeta in Hsay.
  pose proof (aborted_fresh (Pipeline.bargeIn p)) as Hfresh.
  set (sig := fst (BargeIn.startCycle (Pipeline.bargeIn p))) in *.
  assert (Hev : Pipeline.emitted (Pipeline.world (sayPrologue p))
                = Pipeline.emitted (Pipeline.world p)
                  ++ [Pipeline.agentState Pipeline.thinking]).
  { unfold sayPrologue.
    cbn [Pipeline.world Pipeline.onWorld Pipeline.set_world].
    rewrite emitted_setAgentState.
    cbn [Pipeline.world Pipeline.onAudio Pipeline.onWorld Pipeline.set_world
         Pipeline.set_bargeIn Pipeline.set_processing Pipeline._agentState
         Pipeline.set_audioOutput].
    now rewrite Hidle. }
  assert (Hst : Pipeline._agentState (Pipeline.world (sayPrologue p))
                = Pipeline.thinking) by apply agentState_setAgentState.
  destruct (Pipeline.tts (Pipeline.config p)) as [plugin|] eqn:Etts.
  - cbn [app Pipeline.run fold_left].
    change (Pipeline.step toLowerCase p (Pipeline.Say text))
      with (Pipeline.say text p).
    rewrite Hsay, step_say_firstAudio, step_say_ttsEnd.
    match goal with
    | |- context [Pipeline.sayAfter text sig ?q] =>
        destruct (say_epilogue toLowerCase text sig q)
          as (H1 & H2 & H3 & H4 & H5); [exact Hfresh|exact Hpend|]
    end.
    cbv zeta in H1, H2, H3, H4, H5. rewrite H1, H2, H3, H4, H5.
    cbn [Pipeline.context Pipeline.world Pipeline.clock Pipeline.config
         Pipeline.onAudio Pipeline.onWorld Pipeline.set_world
         Pipeline.set_task Pipeline._agentState Pipeline.emitted
         Pipeline.set_audioOutput Pipeline.emit].
    rewrite agentState_setAgentState, emitted_setAgentState.
    cbn [Pipeline.world Pipeline.onAudio Pipeline.onWorld Pipeline.set_world
         Pipeline._agentState Pipeline.emitted Pipeline.set_audioOutput].
    rewrite Hst, Hev. cbn [Pipeline.AgentState_eqb].
    repeat split. now rewrite <- !List.app_assoc.
  - cbn [app Pipeline.run fold_left].
    change (Pipeline.step toLowerCase p (Pipeline.Say text))
      with (Pipeline.say text p).
    rewrite Hsay.
    destruct (say_epilogue toLowerCase text sig (sayPrologue p))
      as (H1 & H2 & H3 & H4 & H5); [exact Hfresh|exact Hpend|].
    cbv zeta in H1, H2, H3, H4, H5. rewrite H1, H2, H3, H4, H5.
    rewrite Hst, Hev. cbn [Pipeline.AgentState_eqb].
    repeat split. now rewrite <- !List.app_assoc.
Qed.

Lemma say_speaks_and_records_witness :
  let p' :=
    Pipeline.run Pipeline.asciiLower demo
      (sayTicks (Pipeline.config demo) (str " Welcome! ")) in
  ContextManager.turns (Pipeline.context p')
  = [{| ContextManager.speaker := str "assistant";
        ContextManager.text := str " Welcome! ";
        ContextManager.isAgent := true;
        ContextManager.timestamp := 0 |}] /\
  events p'
  = [Pipeline.agentState Pipeline.thinking;
     Pipeline.agentState Pipeline.speaking;
     Pipeline.sentence (str " Welcome! ");
     Pipeline.response (str " Welcome! ");
     Pipeline.agentState Pipeline.idle] /\
  Pipeline._processing p' = false /\ Pipeline.task p' = Pipeline.Idle /\
  Pipeline._agentState (Pipeline.world p') = Pipeline.idle.
Proof.
  apply (say_speaks_and_records Pipeline.asciiLower (str " Welcome! ") demo);
    reflexivity.
Defined.

(** ** Pipeline: speech during playback *)

Section Playback.

Import Pipeline.




End Playback.



(** ** TurnDetector *)

Section TurnDetectorFacts.

Context {W : Type}.

Import TurnDetector.

Lemma fireDue_idle (now : Z) (cb : W -> W) (ts : list (option Z)) (w : W) :
  (forall i deadline, ts !! i = Some (Some deadline) -> False) ->
  fireDue now cb ts w = (ts, w).
Proof.
  revert w. induction ts as [|[deadline|] ts IH]; intros w H; [reflexivity| |].
  - destruct (H 0 deadline eq_refl).
  - simpl. rewrite IH; [reflexivity|]. intros i deadline. apply (H (S i)).
Qed.

Lemma fireDue_length (now : Z) (cb : W -> W) (ts : list (option Z)) (w : W) :
  length (fst (fireDue now cb ts w)) = length ts.
Proof.
  revert w. induction ts as [|[deadline|] ts IH]; intros w; simpl;
    [reflexivity| |].
  - destruct (deadline <=? now)%Z.
    + specialize (IH (cb w)). destruct (fireDue now cb ts (cb w)). simpl in *.
      now rewrite IH.
    + specialize (IH w). destruct (fireDue now cb ts w). simpl in *.
      now rewrite IH.
  - specialize (IH w). destruct (fireDue now cb ts w). simpl in *.
    now rewrite IH.
Qed.

(** Firing only ever spends timers. *)
Lemma fireDue_pending (now : Z) (cb : W -> W) (ts : list (option Z)) (w : W)
    (i : nat) (deadline : Z) :
  fst (fireDue now cb ts w) !! i = Some (Some deadline) ->
  ts !! i = Some (Some deadline) /\ (now < deadline)%Z.
Proof.
  revert w i. induction ts as [|[d0|] ts IH]; intros w i; simpl; [easy| |].
  - destruct (d0 <=? now)%Z eqn:E.
    + specialize (IH (cb w)). destruct (fireDue now cb ts (cb w)).
      destruct i; simpl; [discriminate|apply IH].
    + specialize (IH w). destruct (fireDue now cb ts w).
      destruct i; simpl; [|apply IH].
      intros [= <-]. split; [reflexivity|]. now apply Z.leb_gt in E.
  - specialize (IH w). destruct (fireDue now cb ts w).
    destruct i; simpl; [discriminate|apply IH].
Qed.


Lemma one_timer_clearTimer (d : t W) :
  one_timer d ->
  forall i deadline, timers (clearTimer d) !! i = Some (Some deadline) -> False.
Proof.
  intros H i deadline. unfold clearTimer.
  destruct (silenceTimer d) as [h|] eqn:E; simpl.
  - intros Hi. destruct (decide (h = i)) as [->|Hne].
    + assert (Hlt : i < length (timers d)).
      { apply lookup_lt_Some in Hi. now rewrite length_insert in Hi. }
      rewrite list_lookup_insert_eq in Hi by exact Hlt. discriminate.
    + rewrite list_lookup_insert_ne in Hi by exact Hne.
      specialize (H i deadline Hi). congruence.
  - intros Hi. specialize (H i deadline Hi). congruence.
Qed.

Lemma clearTimer_idem (d : t W) : clearTimer (clearTimer d) = clearTimer d.
Proof.
  unfold clearTimer. destruct (silenceTimer d) eqn:E; simpl; now rewrite ?E.
Qed.

Lemma one_timer_call (c : DetectorCall) (d : t W) (w : W) :
  one_timer d -> one_timer (fst (detectorCall (d, w) c)).
Proof.
  intros H. pose proof (one_timer_clearTimer d H) as Hc.
  destruct c as [now text isFinal| | |now]; cbn [detectorCall fst snd].
  - unfold handleTranscription.
    destruct (isFinal && (0 <? length (trim text))).
    + intros i deadline. simpl. intros Hi.
      destruct (Nat.lt_ge_cases i (length (timers (clearTimer d)))) as [Hlt|Hge].
      * rewrite lookup_app_l in Hi by exact Hlt. destruct (Hc _ _ Hi).
      * rewrite lookup_app_r in Hi by exact Hge.
        destruct (i - length (timers (clearTimer d))) as [|n] eqn:En;
          [|destruct n; simpl in Hi; discriminate]. f_equal. lia.
    + simpl. intros i deadline Hi. exfalso.
      destruct (negb isFinal && _); [rewrite clearTimer_idem in Hi|];
        exact (Hc _ _ Hi).
  - intros i deadline Hi. destruct (Hc _ _ Hi).
  - intros i deadline Hi. destruct (Hc _ _ Hi).
  - unfold elapse. intros i deadline.
    pose proof (fireDue_pending now (turnEnd d) (timers d) w i deadline) as Hp.
    destruct (fireDue now (turnEnd d) (timers d) w). simpl in *.
    intros Hi. apply (H i deadline). now apply Hp.
Qed.

Lemma one_timer_calls (cs : list DetectorCall) (d : t W) (w : W) :
  one_timer d -> one_timer (fst (detectorCalls cs (d, w))).
Proof.
  revert d w. induction cs as [|c cs IH]; intros d w H; [exact H|].
  simpl. destruct (detectorCall (d, w) c) as [d' w'] eqn:E.
  apply IH. change d' with (fst (d', w')). rewrite <- E.
  now apply one_timer_call.
Qed.

Lemma callback_call (c : DetectorCall) (d : t W) (w : W) :
  _onTurnEnd (fst (detectorCall (d, w) c)) = _onTurnEnd d /\
  silenceTimeoutMs (fst (detectorCall (d, w) c)) = silenceTimeoutMs d.
Proof.
  destruct c as [now text isFinal| | |now]; cbn [detectorCall fst snd].
  - unfold handleTranscription, clearTimer.
    destruct (isFinal && (0 <? length (trim text)));
      [|destruct (negb isFinal && (0 <? length (trim text)))];
      destruct (silenceTimer d) eqn:E; simpl; rewrite ?E; now simpl.
  - unfold forceTurnEnd, clearTimer. now destruct (silenceTimer d).
  - unfold reset, clearTimer. now destruct (silenceTimer d).
  - unfold elapse. now destruct (fireDue _ _ _ _).
Qed.

Lemma callback_calls (cs : list DetectorCall) (d : t W) (w : W) :
  _onTurnEnd (fst (detectorCalls cs (d, w))) = _onTurnEnd d /\
  silenceTimeoutMs (fst (detectorCalls cs (d, w))) = silenceTimeoutMs d.
Proof.
  revert d w. induction cs as [|c cs IH]; intros d w; [now split|].
  simpl. destruct (detectorCall (d, w) c) as [d' w'] eqn:E.
  destruct (IH d' w') as [-> ->].
  change d' with (fst (d', w')). rewrite <- E. apply callback_call.
Qed.

End TurnDetectorFacts.


Section TurnDetectorOnce.

Context {W : Type}.

Import TurnDetector.

Lemma fireDue_not_due (now : Z) (cb : W -> W) (ts : list (option Z)) (w : W) :
  (forall i deadline, ts !! i = Some (Some deadline) -> (now < deadline)%Z) ->
  fireDue now cb ts w = (ts, w).
Proof.
  revert w. induction ts as [|[deadline|] ts IH]; intros w H; [reflexivity| |].
  - simpl. specialize (H 0 deadline eq_refl) as H0.
    apply Z.leb_gt in H0. rewrite H0.
    rewrite IH; [reflexivity|]. intros i dl. apply (H (S i)).
  - simpl. rewrite IH; [reflexivity|]. intros i dl. apply (H (S i)).
Qed.

Lemma elapse_idle (later : Z) (d : t W) (w : W) :
  (forall i deadline, timers d !! i = Some (Some deadline) -> False) ->
  snd (elapse later d w) = w.
Proof. intros H. unfold elapse. now rewrite fireDue_idle. Qed.

End TurnDetectorOnce.

(** X20.  [forceTurnEnd] signals the turn end at once and [reset] does
    not; after either, and after the timer has fired, nothing is left
    that could signal it again. *)
Theorem turn_end_is_signalled_once {W : Type}
    (options : TurnDetector.TurnDetectorOptions) (cb : W -> W)
    (cs : list DetectorCall) (w0 w w' : W) (later later' : Z) :
  (later' <= later)%Z ->
  let d := fst (detectorCalls cs
                  (TurnDetector.set_onTurnEnd (Some cb)
                     (TurnDetector.create options), w0)) in
  snd (TurnDetector.forceTurnEnd d w) = cb w /\
  snd (TurnDetector.elapse later (fst (TurnDetector.forceTurnEnd d w)) w') = w' /\
  snd (TurnDetector.elapse later (TurnDetector.reset d) w') = w' /\
  snd (TurnDetector.elapse later' (fst (TurnDetector.elapse later d w)) w') = w'.
Proof.
  intros Hle d.
  assert (H1 : one_timer d) by (apply one_timer_calls; intros i dl; now destruct i).
  destruct (callback_calls cs
              (TurnDetector.set_onTurnEnd (Some cb) (TurnDetector.create options))
              w0) as [Hcb _].
  fold d in Hcb. simpl in Hcb.
  pose proof (one_timer_clearTimer d H1) as Hc.
  repeat split.
  - unfold TurnDetector.forceTurnEnd, TurnDetector.turnEnd,
      TurnDetector.clearTimer. simpl.
    destruct (TurnDetector.silenceTimer d); simpl; now rewrite Hcb.
  - apply elapse_idle. exact Hc.
  - apply elapse_idle. exact Hc.
  - unfold TurnDetector.elapse at 2.
    pose proof (fireDue_pending later (TurnDetector.turnEnd d)
                  (TurnDetector.timers d) w) as Hp.
    destruct (TurnDetector.fireDue later _ _ w) as [ts w1]. simpl in Hp.
    unfold TurnDetector.elapse. simpl.
    rewrite fireDue_not_due; [reflexivity|].
    intros i dl Hi. destruct (Hp i dl Hi). lia.
Qed.

Lemma turn_end_is_signalled_once_witness :
  let d := snd (TurnDetector.handleTranscription 0 (str "hello") true
                  (TurnDetector.set_onTurnEnd (Some S)
                     (TurnDetector.create
                        {| TurnDetector.opt_silenceTimeoutMs := None |}))) in
  snd (TurnDetector.forceTurnEnd d 0) = 1 /\
  snd (TurnDetector.elapse 1000 (fst (TurnDetector.forceTurnEnd d 0)) 1) = 1 /\
  snd (TurnDetector.elapse 1000 (TurnDetector.reset d) 1) = 1 /\
  snd (TurnDetector.elapse 900 (fst (TurnDetector.elapse 1000 d 0)) 1) = 1.
Proof.
  apply (turn_end_is_signalled_once
           {| TurnDetector.opt_silenceTimeoutMs := None |} S
           [Heard 0 (str "hello") true] 0 0 1 1000 900).
  lia.
Defined.

(** ** RoomMemory *)

Section RoomMemoryFacts.

Context {Embedding : Type}.

Import RoomMemory.








End RoomMemoryFacts.


(** * The model on the cases of the test suites *)

Module SplitterExamples.

Import SentenceSplitter.

Example splits_at_sentence_boundary :
  fst (push create (str "This is a test sentence. "))
  = [str "This is a test sentence."].
Proof. vm_compute. reflexivity. Qed.

Example short_sentence_waits :
  fst (push create (str "Hi. ")) = [].
Proof. vm_compute. reflexivity. Qed.

Example short_sentence_stays_buffered :
  let '(c1, s1) := push create (str "Hi. ") in
  let '(c2, s2) := push s1 (str "This is more text that goes on. ") in
  c1 = [] /\ c2 = [] /\
  fst (flush s2) = Some (str "Hi. This is more text that goes on.").
Proof. vm_compute. repeat split. Qed.

Example multi_sentence :
  fst (push create (str
    "First sentence is long enough. Second sentence also long enough. "))
  = [str "First sentence is long enough.";
     str "Second sentence also long enough."].
Proof. vm_compute. reflexivity. Qed.

Example clause_split :
  fst (push create (repeat 65%N 30 ++ str ", " ++ repeat 66%N 130))
  = [repeat 65%N 30 ++ str ","].
Proof. vm_compute. reflexivity. Qed.

Example forced_word_split :
  let words := join (str " ") (repeat (str "word") 32) in
  length words = 159 /\
  List.map (@length N) (fst (push create words)) = [149].
Proof. vm_compute. split; reflexivity. Qed.

Example accumulates_across_pushes :
  let '(c1, s1) := push create (str "This is ") in
  let '(c2, s2) := push s1 (str "a test ") in
  let '(c3, s3) := push s2 (str "sentence. ") in
  c1 = [] /\ c2 = [] /\ c3 = [str "This is a test sentence."].
Proof. vm_compute. repeat split. Qed.

Example flush_when_empty : fst (flush create) = None.
Proof. reflexivity. Qed.

End SplitterExamples.

Module BargeInExamples.

Example trigger_without_startCycle :
  let b := BargeIn.set_onInterrupt (Some S) BargeIn.create in
  let '(b1, calls) := BargeIn.trigger b 0 in
  BargeIn.interrupted b1 = true /\ calls = 1.
Proof. split; reflexivity. Qed.

Example fresh_signal_after_reset :
  let '(signal1, b1) := BargeIn.startCycle (BargeIn.create (W := nat)) in
  let '(b2, _) := BargeIn.trigger b1 0 in
  let '(signal2, b3) := BargeIn.startCycle (BargeIn.reset b2) in
  BargeIn.aborted b3 signal1 = true /\ BargeIn.aborted b3 signal2 = false /\
  signal1 <> signal2.
Proof. vm_compute. repeat split. discriminate. Qed.

End BargeInExamples.

Module ContextManagerExamples.

Import ContextManager.

Example system_prompt_only :
  buildMessages None helpful
  = [{| role := system; content := str "You are a helpful tutor." |}].
Proof. reflexivity. Qed.

Example memory_context_after_instructions :
  buildMessages (Some (str "Bob scored 95 on the last quiz."))
    (addUserTurn 0 (str "Bob") (str "What was my score?") helpful)
  = [{| role := system; content := str "You are a helpful tutor." |};
     {| role := system;
        content := str "Relevant context from past conversations:" ++ newline
                   ++ str "Bob scored 95 on the last quiz." |};
     {| role := user; content := str "[Bob]: What was my score?" |}].
Proof. reflexivity. Qed.

Example budget_exceeded :
  shouldSummarize
    (addAgentTurn 1 (repeat 66%N 100)
       (addUserTurn 0 (str "User") (repeat 65%N 100)
          (create {| opt_instructions := str "You are a helpful tutor.";
                     opt_maxContextTokens := Some 50%Z;
                     opt_recentTurnsToKeep := None |}))) = true
  /\ shouldSummarize (addUserTurn 0 (str "User") (str "Hello") helpful) = false.
Proof. split; reflexivity. Qed.

Example summarize_replaces_old_turns :
  let c' := fst (summarize summaryLLM (tutor (Some 2%Z))) in
  buildMessages None c'
  = [{| role := system; content := str "You are a helpful tutor." |};
     {| role := system;
        content := str "Conversation summary so far:" ++ newline
                   ++ str "Summary of the conversation so far." |};
     {| role := assistant; content := str "First answer" |};
     {| role := user; content := str "[Alice]: Second question" |}].
Proof. vm_compute. reflexivity. Qed.

Example full_transcript :
  getFullTranscript
    (addUserTurn 2 (str "Alice") (str "How are you?")
       (addAgentTurn 1 (str "Hi!")
          (addUserTurn 0 (str "Alice") (str "Hello") helpful)))
  = str "[Alice]: Hello" ++ newline ++ str "[assistant]: Hi!" ++ newline
    ++ str "[Alice]: How are you?".
Proof. reflexivity. Qed.

End ContextManagerExamples.

Module PipelineExamples.

Import Pipeline.

(** Scenario A: one full cycle. *)
Example full_cycle :
  events (run asciiLower demo
            (finalTranscript "user1" "Hello there" :: answer
             ++ [TtsFirstAudio; TtsEnd None; DrainElapsed]))
  = [transcription (str "user1")
       {| tr_text := str "Hello there"; isFinal := true |};
     agentState thinking; agentState speaking;
     sentence fullText; response fullText; agentState idle].
Proof. vm_compute. reflexivity. Qed.

(** Scenario B: only a turn that names the agent starts a cycle. *)
Example addressed_mode :
  let p0 := create asciiLower (addressedOptions None) in
  _processing (run asciiLower p0 [finalTranscript "user1" "hello everyone"])
  = false /\
  _processing (run asciiLower p0 [finalTranscript "user1" "hey tutor, help me"])
  = true /\
  _processing
    (run asciiLower (create asciiLower (addressedOptions (Some (fun _ _ => false))))
       [finalTranscript "user1" "hey tutor, help me"])
  = false.
Proof. vm_compute. repeat split. Qed.

(** Scenario D: without a TTS plugin the response is still emitted. *)
Example without_tts :
  let options :=
    {| opt_tts := None;
       opt_instructions := opt_instructions demoOptions;
       opt_respondMode := None; opt_agentName := None;
       opt_nameVariants := None; opt_beforeRespond := None;
       opt_memory := false; opt_maxContextTokens := None |} in
  events (run asciiLower (create asciiLower options)
            (finalTranscript "user1" "Hello" :: answer ++ [DrainElapsed]))
  = [transcription (str "user1") {| tr_text := str "Hello"; isFinal := true |};
     agentState thinking; response fullText; agentState idle].
Proof. vm_compute. reflexivity. Qed.

(** Scenario C with a stream that throws [AbortError] when it is
    cancelled: nothing of the first answer is recorded, and the queued
    turn is started. *)
Example barge_in_with_abort_error :
  let p :=
    run asciiLower demo
      [finalTranscript "user1" "First question";
       LLMNext (NextYield (tokenChunk (str "Word1")));
       finalTranscript "user1" "Actually nevermind, new question.";
       LLMNext (NextThrow abortError)] in
  events p
  = [transcription (str "user1")
       {| tr_text := str "First question"; isFinal := true |};
     agentState thinking;
     transcription (str "user1")
       {| tr_text := str "Actually nevermind, new question."; isFinal := true |};
     agentState idle; agentState thinking]
  /\ List.map ContextManager.text (ContextManager.turns (context p))
     = [str "First question"; str "Actually nevermind, new question."]
  /\ pendingTurn p = None /\ _processing p = true.
Proof. vm_compute. repeat split. Qed.

(** Two segments of a structured answer, the second in another
    language, make one sentence. *)
Example segments_make_one_sentence :
  let p :=
    run asciiLower demo
      [finalTranscript "user1" "Hello";
       LLMNext (NextYield (segmentChunk (str "en") (str "In the afternoon we say")));
       LLMNext (NextYield (segmentChunk (str "es") (str "buenas tardes.")))] in
  match task p with
  | Responding c =>
      consumer c = CPlaying
        (str "<lang xml:lang=" ++ [dquote] ++ str "en" ++ [dquote]
         ++ str ">In the afternoon we say</lang> <lang xml:lang="
         ++ [dquote] ++ str "es" ++ [dquote] ++ str ">buenas tardes.</lang>")
        true
      /\ fullResponse c = str "In the afternoon we say buenas tardes."
  | _ => False
  end.
Proof. vm_compute. split; reflexivity. Qed.

End PipelineExamples.

(** The cases of test/turn-detector.test.ts; the callback counts its
    calls. *)
Module TurnDetectorExamples.

Import TurnDetector.

Example fires_after_silence :
  let d := snd (handleTranscription 0 (str "hello") true (detector None)) in
  snd (elapse 500 d 0) = 0 /\ snd (elapse 800 d 0) = 1.
Proof. vm_compute. split; reflexivity. Qed.

Example interim_result_resets_the_timer :
  snd (detectorCalls
         [Heard 0 (str "hello") true; Elapse 500;
          Heard 500 (str "hello world") false; Elapse 1000; Elapse 1300]
         (detector None, 0)) = 0.
Proof. vm_compute. reflexivity. Qed.

Example forceTurnEnd_calls_back_at_once :
  snd (forceTurnEnd (detector None) 0) = 1.
Proof. vm_compute. reflexivity. Qed.

Example reset_clears_the_timer :
  snd (detectorCalls [Heard 0 (str "hello") true; ResetDetector; Elapse 1000]
         (detector None, 0)) = 0.
Proof. vm_compute. reflexivity. Qed.

Example custom_timeout :
  let d := snd (handleTranscription 0 (str "hello") true (detector (Some 200%Z))) in
  snd (elapse 199 d 0) = 0 /\ snd (elapse 200 d 0) = 1.
Proof. vm_compute. split; reflexivity. Qed.

Example blank_final_result_is_ignored :
  snd (detectorCalls [Heard 0 (str "   ") true; Elapse 1000] (detector None, 0))
  = 0.
Proof. vm_compute. reflexivity. Qed.

End TurnDetectorExamples.

Module RoomMemoryExamples.

Import RoomMemory.

(** The fifth turn starts a flush; the embedder fails, and the batch is
    back in the queue before the turn that came in meanwhile; the next
    flush stores all six. *)
Example failed_flush_is_retried :
  let m1 :=
    memoryCalls
      [StartSession (str "s1"); said "one"; said "two"; said "three";
       said "four"; said "five"; said "six"; EmbedSettled None]
      (create (str "room")) in
  let m2 := memoryCalls [FlushTimer; EmbedSettled (Some (fun _ => Some 0))] m1 in
  List.map text (pendingTurns m1)
  = [str "one"; str "two"; str "three"; str "four"; str "five"; str "six"] /\
  turnRows (store m1) = [] /\
  pendingTurns m2 = [] /\
  List.map row_text (turnRows (store m2))
  = [str "one"; str "two"; str "three"; str "four"; str "five"; str "six"].
Proof. vm_compute. repeat split. Qed.

End RoomMemoryExamples.
